(** * Cerebra-AI: the splash-screen entrance animation

    A shallow embedding of [SplashScreen] (the second document of
    [Frontend/src/components/ChatColorStyles.tsx]) and the properties
    its specification states about it.

    Numbers.  A JavaScript [number] is modelled as a real ([R]): the
    statements below are the real-arithmetic content of the code, and
    rounding of IEEE doubles is outside the model.  [Math.min],
    [Math.max], [Math.pow x n], [Math.sin], [Math.cos] and [Math.PI]
    are [Rmin], [Rmax], [x ^ n], [sin], [cos] and [PI].  Where the
    rounding decides a bound (the upper ends of the seeds' ranges, the
    glow at progress 1), module [Doubles] has the same expressions in
    binary64.

    Presentation.  The CSS strings the component assembles (class
    names, the text of [transform], [textShadow] and [filter]) are kept
    as the numbers and the case they are built from. *)

From Stdlib Require Import Reals Lra Psatz List ZArith Bool Sorted.
From Stdlib Require String.
From Stdlib Require PrimFloat.
Import ListNotations.
Open Scope R_scope.

(** ** Constants of the component *)

Definition totalDuration : R := 4500.
Definition fadeOutDuration : R := 1200.

(** [const letters = ['C','E','R','E','B','R','A']]; only their number
    and order matter to the animation. *)
Inductive Letter := LC | LE | LR | LB | LA.
Definition letters : list Letter := [LC; LE; LR; LE; LB; LR; LA].

(** ** Easing *)

Module Easing.

Definition easeOutQuart (t : R) : R := 1 - (1 - t) ^ 4.

Definition easeInOutCubic (t : R) : R :=
  if Rlt_dec t 0.5 then 4 * t * t * t else 1 - (-2 * t + 2) ^ 3 / 2.

End Easing.
Import Easing.

(** ** Seeds: [letterData] *)

Record LetterData := mkLetterData {
  startX : R;
  startY : R;
  startRotation : R;
  startScale : R;
  midX : R;
  midY : R;
  finalX : R;
  finalY : R;
  pixelIntensity : R;
  glitchOffset : R
}.

(** A seed within the ranges [letterData] draws from, for examples. *)
Definition sampleSeed : LetterData :=
  {| startX := 300; startY := -200; startRotation := 90; startScale := 0.25;
     midX := 100; midY := -75; finalX := 0; finalY := 0;
     pixelIntensity := 0.6; glitchOffset := 5 |}.

Module Seeds.

(** [Math.random()] is a stream of draws read in order: the state is
    the number of draws made so far. *)
Definition Rand (A : Type) : Type := (nat -> R) -> nat -> A * nat.

Definition ret {A} (a : A) : Rand A := fun _ k => (a, k).
Definition bind {A B} (m : Rand A) (f : A -> Rand B) : Rand B :=
  fun rnd k => let (a, k') := m rnd k in f a rnd k'.
Definition random : Rand R := fun rnd k => (rnd k, S k).

Notation "x <- m ;; f" := (bind m (fun x => f))
  (at level 61, m at next level, right associativity).

(** The object literal of one letter; its properties are evaluated in
    the order they are written. *)
Definition seed (index : nat) : Rand LetterData :=
  r1 <- random ;;
  r2 <- random ;;
  r3 <- random ;;
  r4 <- random ;;
  r5 <- random ;;
  r6 <- random ;;
  r7 <- random ;;
  r8 <- random ;;
  ret {| startX := (r1 - 0.5) * 1200;
         startY := (r2 - 0.5) * 800;
         startRotation := (r3 - 0.5) * 720;
         startScale := 0.1 + r4 * 0.3;
         midX := (r5 - 0.5) * 400;
         midY := (r6 - 0.5) * 300;
         finalX := INR index * -8;
         finalY := 0;
         pixelIntensity := r7 * 0.8 + 0.2;
         glitchOffset := r8 * 20 - 10 |}.

(** [xs.map((_, index) => ...)], from [index] on. *)
Fixpoint mapFrom {A} (index : nat) (xs : list A) : Rand (list LetterData) :=
  match xs with
  | [] => ret []
  | _ :: rest =>
      d <- seed index ;;
      ds <- mapFrom (S index) rest ;;
      ret (d :: ds)
  end.

Definition letterData {A} (xs : list A) (rnd : nat -> R) : list LetterData :=
  fst (mapFrom 0 xs rnd 0%nat).

End Seeds.

(** ** Trajectory: [getPosition] and [getLetterStyle] *)

Module Trajectory.

Record Position := mkPosition {
  x : R;
  y : R;
  rotation : R;
  scale : R
}.

(** First part of the journey ([t < 0.6]): start to mid, with the
    oscillation added. *)
Definition firstLegX (data : LetterData) (index : Z) (t : R) : R :=
  let localT := t / 0.6 in
  let easedT := easeOutQuart localT in
  startX data * (1 - easedT) + midX data * easedT
  + sin (t * PI * 3 + IZR index) * (1 - easedT) * 50.

Definition firstLegY (data : LetterData) (index : Z) (t : R) : R :=
  let localT := t / 0.6 in
  let easedT := easeOutQuart localT in
  startY data * (1 - easedT) + midY data * easedT
  + cos (t * PI * 2.5 + IZR index) * (1 - easedT) * 30.

(** Second part: mid to final position. *)
Definition secondLegX (data : LetterData) (t : R) : R :=
  let localT := (t - 0.6) / 0.4 in
  let easedT := easeInOutCubic localT in
  midX data * (1 - easedT) + finalX data * easedT.

Definition secondLegY (data : LetterData) (t : R) : R :=
  let localT := (t - 0.6) / 0.4 in
  let easedT := easeInOutCubic localT in
  midY data * (1 - easedT) + finalY data * easedT.

(** [getPosition(t)], closed over [data] and [index].  (The source
    also computes [positionEase = easeOutQuart(t)] and does not use
    it.) *)
Definition getPosition (data : LetterData) (index : Z) (t : R) : Position :=
  let rotationEase := easeInOutCubic t in
  let scaleEase := easeInOutCubic (Rmin (t * 1.5) 1) in
  let xy :=
    if Rlt_dec t 0.6
    then (firstLegX data index t, firstLegY data index t)
    else (secondLegX data t, secondLegY data t) in
  {| x := fst xy;
     y := snd xy;
     rotation := startRotation data * (1 - rotationEase);
     scale := startScale data * (1 - scaleEase) + 1 * scaleEase |}.

Definition pixelSize (data : LetterData) (progress : R) : R :=
  let pixelationProgress := Rmin (progress * 1.8) 1 in
  pixelIntensity data * (1 - easeInOutCubic pixelationProgress) * 8.

(** [opacity]: the fade in, and under [fadeOut] the fade-out factor
    read from the clock.  [startTime] is [startTimeRef.current!]. *)
Definition opacity (progress : R) (fadeOut : bool) (startTime now : R) : R :=
  let opacity := Rmin (progress * 2.5) 1 in
  if fadeOut
  then opacity * Rmax 0 (1 - (now - (startTime + totalDuration + 800)) / fadeOutDuration)
  else opacity.

Definition glowIntensity (progress : R) : R :=
  Rmax 0 ((progress - 0.8) / 0.2).

Definition glitchX (data : LetterData) (index : Z) (progress now : R) : R :=
  if Rlt_dec progress 0.4
  then sin (now * 0.01 + IZR index) * glitchOffset data * (1 - progress * 2.5)
  else 0.

Definition glitchY (data : LetterData) (index : Z) (progress now : R) : R :=
  if Rlt_dec progress 0.4
  then cos (now * 0.015 + IZR index) * glitchOffset data * 0.5 * (1 - progress * 2.5)
  else 0.

(** The cases of [textShadow] and [filter], with the numbers printed
    into them. *)
Inductive TextShadow :=
| ShadowPixelated (px : R)
| ShadowGlow (inner outer : R)
| ShadowFaint
| ShadowEmpty.

Inductive PixelFilter :=
| FilterPixel (blur contrast saturate : R)
| FilterGlow (brightness saturate : R)
| FilterNone.

Definition textShadow (pixelSize glowIntensity progress : R) : TextShadow :=
  if Rgt_dec pixelSize 0.5 then ShadowPixelated pixelSize
  else if Rgt_dec glowIntensity 0
       then ShadowGlow (10 + glowIntensity * 20) (20 + glowIntensity * 40)
       else if Rgt_dec progress 0.7 then ShadowFaint else ShadowEmpty.

Definition pixelFilter (pixelSize glowIntensity : R) : PixelFilter :=
  if Rgt_dec pixelSize 0.1
  then FilterPixel (pixelSize * 0.3) (1 + pixelSize * 0.2) (1 + pixelSize * 0.5)
  else if Rgt_dec glowIntensity 0
       then FilterGlow (1 + glowIntensity * 0.3) (1 + glowIntensity * 0.2)
       else FilterNone.

(** What [getLetterStyle] returns, for one reading [now] of
    [Date.now()] during the call: the arguments of
    [translate(..px, ..px) rotate(..deg) scale(..)], the opacity, and
    the cases of the remaining style properties. *)
Record LetterStyle := mkLetterStyle {
  translateX : R;
  translateY : R;
  rotateDeg : R;
  scaleBy : R;
  styleOpacity : R;
  styleTextShadow : TextShadow;
  styleFilter : PixelFilter;
  animatePulse : bool;
  pixelated : bool
}.

(** Reading a property of [undefined] throws a [TypeError]. *)
Inductive Outcome (A : Type) :=
| Returns (a : A)
| ThrowsTypeError.
Arguments Returns {A} a.
Arguments ThrowsTypeError {A}.

(** [letterData[index]]: [undefined] unless [index] is one of
    [0 .. length - 1]. *)
Definition element {A} (xs : list A) (index : Z) : option A :=
  if (index <? 0)%Z then None else nth_error xs (Z.to_nat index).

Definition getLetterStyle (letterData : list LetterData)
    (progress : R) (fadeOut : bool) (startTime now : R) (index : Z)
  : Outcome LetterStyle :=
  match element letterData index with
  | None => ThrowsTypeError
  | Some data =>
      let pos := getPosition data index progress in
      let px := pixelSize data progress in
      let glow := glowIntensity progress in
      Returns
        {| translateX := x pos + glitchX data index progress now;
           translateY := y pos + glitchY data index progress now;
           rotateDeg := rotation pos;
           scaleBy := scale pos;
           styleOpacity := opacity progress fadeOut startTime now;
           styleTextShadow := textShadow px glow progress;
           styleFilter := pixelFilter px glow;
           animatePulse := if Rgt_dec glow 0.5 then true else false;
           pixelated := if Rgt_dec px 1 then true else false |}
  end.

(** [overallOpacity] of the whole composition. *)
Definition overallOpacity (fadeOut : bool) (startTime now : R) : R :=
  if fadeOut
  then Rmax 0 (1 - (now - (startTime + totalDuration + 800)) / fadeOutDuration)
  else 1.

End Trajectory.

(** ** Session: the effect, its frame loop and its timers

    The effect of [SplashScreen] depends on [onComplete, fadeOut].
    The host ([App]) hands over [handleSplashComplete] and renders
    again only when that callback has been called, so while the splash
    screen is shown the effect is run again only by a change of
    [fadeOut].  One clock serves the frame time stamps, the timers and
    [Date.now()]. *)

Module Session.

(** The two callbacks handed to [setTimeout]: the outer one (after the
    pause) and [onComplete] (after the fade). *)
Inductive TimerTask := StartFade | Complete.

(** Calls the component makes on its host and on React's state. *)
Inductive Call :=
| SetProgress (newProgress : R)
| SetFadeOut
| OnComplete.

(** The component instance ([progress], [fadeOut], the two refs),
    whether it is still mounted, and what the browser holds for it:
    the frame callbacks requested and not yet run (handle, and the
    [fadeOut] the closure [animate] captured), the timers set and not
    yet fired (due time and task, earliest first), and the calls made
    so far with the time they were made at, latest first. *)
Record State := mkState {
  progress : R;
  fadeOut : bool;
  animationRef : option nat;
  startTimeRef : option R;
  mounted : bool;
  frames : list (nat * bool);
  nextHandle : nat;
  timers : list (R * TimerTask);
  calls : list (R * Call)
}.

Definition withFrames (fs : list (nat * bool)) (s : State) : State :=
  mkState (progress s) (fadeOut s) (animationRef s) (startTimeRef s)
          (mounted s) fs (nextHandle s) (timers s) (calls s).

Definition withTimers (ts : list (R * TimerTask)) (s : State) : State :=
  mkState (progress s) (fadeOut s) (animationRef s) (startTimeRef s)
          (mounted s) (frames s) (nextHandle s) ts (calls s).

Definition called (now : R) (c : Call) (s : State) : State :=
  mkState (progress s) (fadeOut s) (animationRef s) (startTimeRef s)
          (mounted s) (frames s) (nextHandle s) (timers s)
          ((now, c) :: calls s).

(** [animationRef.current = requestAnimationFrame(animate)], where
    [animate] closes over [closureFadeOut]. *)
Definition requestAnimationFrame (closureFadeOut : bool) (s : State) : State :=
  mkState (progress s) (fadeOut s) (Some (nextHandle s)) (startTimeRef s)
          (mounted s) (frames s ++ [(nextHandle s, closureFadeOut)])
          (S (nextHandle s)) (timers s) (calls s).

Definition cancelAnimationFrame (handle : nat) (s : State) : State :=
  withFrames (filter (fun f => negb (Nat.eqb (fst f) handle)) (frames s)) s.

Fixpoint enqueue (due : R) (task : TimerTask) (ts : list (R * TimerTask))
  : list (R * TimerTask) :=
  match ts with
  | [] => [(due, task)]
  | (d, k) :: rest =>
      if Rlt_dec due d then (due, task) :: ts
      else (d, k) :: enqueue due task rest
  end.

Definition setTimeout (task : TimerTask) (delay now : R) (s : State) : State :=
  withTimers (enqueue (now + delay) task (timers s)) s.

(** [setProgress(p)]: a state update; React drops it once the
    component is unmounted.  The effect does not depend on [progress],
    so it is not run again. *)
Definition setProgress (p now : R) (s : State) : State :=
  let s := called now (SetProgress p) s in
  if mounted s
  then mkState p (fadeOut s) (animationRef s) (startTimeRef s)
               (mounted s) (frames s) (nextHandle s) (timers s) (calls s)
  else s.

(** The cleanup the effect returns. *)
Definition cleanup (s : State) : State :=
  match animationRef s with
  | Some handle => if Nat.eqb handle 0 then s else cancelAnimationFrame handle s
  | None => s
  end.

(** [setFadeOut(true)]: when it changes the state of a mounted
    component, the effect (dependencies [onComplete, fadeOut]) is
    cleaned up and run again, with [animate] now closing over
    [fadeOut = true]. *)
Definition setFadeOut (now : R) (s : State) : State :=
  let s := called now SetFadeOut s in
  if mounted s && negb (fadeOut s)
  then
    let s := mkState (progress s) true (animationRef s) (startTimeRef s)
                     (mounted s) (frames s) (nextHandle s) (timers s) (calls s) in
    requestAnimationFrame true (cleanup s)
  else s.

(** [!startTimeRef.current]: unset, or zero. *)
Definition startTimeAt (currentTime : R) (ref : option R) : R :=
  match ref with
  | Some t => if Req_dec_T t 0 then currentTime else t
  | None => currentTime
  end.

Definition newProgressAt (currentTime startTime : R) : R :=
  let elapsed := currentTime - startTime in
  Rmin (elapsed / totalDuration) 1.

(** One run of the frame callback [animate(currentTime)]. *)
Definition animate (closureFadeOut : bool) (currentTime : R) (s : State) : State :=
  let startTime := startTimeAt currentTime (startTimeRef s) in
  let s := mkState (progress s) (fadeOut s) (animationRef s) (Some startTime)
                   (mounted s) (frames s) (nextHandle s) (timers s) (calls s) in
  let newProgress := newProgressAt currentTime startTime in
  let s := setProgress newProgress currentTime s in
  let s := if Rge_dec newProgress 1
           then if closureFadeOut then s
                else setTimeout StartFade 800 currentTime s
           else s in
  if Rlt_dec newProgress 1
  then requestAnimationFrame closureFadeOut s
  else if closureFadeOut then requestAnimationFrame closureFadeOut s else s.

Definition runTimer (task : TimerTask) (now : R) (s : State) : State :=
  match task with
  | StartFade =>
      let s := setFadeOut now s in
      setTimeout Complete fadeOutDuration now s
  | Complete => called now OnComplete s
  end.

(** What happens to a session: the browser runs the frame callbacks
    requested so far, with time stamp [now]; the earliest timer fires,
    at a time [now] not before it is due; the host unmounts the
    component. *)
Inductive Event :=
| Frame (now : R)
| Timer (now : R)
| Unmount.

Definition step (s : State) (e : Event) : State :=
  match e with
  | Frame now =>
      fold_left (fun st f => animate (snd f) now st) (frames s) (withFrames [] s)
  | Timer now =>
      match timers s with
      | (due, task) :: rest =>
          if Rle_dec due now then runTimer task now (withTimers rest s) else s
      | [] => s
      end
  | Unmount =>
      if mounted s
      then
        let s := cleanup s in
        mkState (progress s) (fadeOut s) (animationRef s) (startTimeRef s)
                false (frames s) (nextHandle s) (timers s) (calls s)
      else s
  end.

Definition run (s : State) (trace : list Event) : State :=
  fold_left step trace s.

(** Mounting: the first render, then the effect. *)
Definition mount : State :=
  requestAnimationFrame false
    (mkState 0 false None None true [] 1 [] []).

(** The phase a state is in, read off the component. *)
Inductive Phase := Entering | HoldingComplete | FadingOut | Completed.

Definition completions (cs : list (R * Call)) : list R :=
  flat_map (fun c => match snd c with OnComplete => [fst c] | _ => [] end) cs.

Definition fadeStarts (cs : list (R * Call)) : list R :=
  flat_map (fun c => match snd c with SetFadeOut => [fst c] | _ => [] end) cs.

Definition phase (s : State) : Phase :=
  match completions (calls s) with
  | _ :: _ => Completed
  | [] =>
      if fadeOut s then FadingOut
      else if Rge_dec (progress s) 1 then HoldingComplete else Entering
  end.

(** A full run: a first frame at [t0], frames while entering, the frame
    at [tDone] that reaches progress 1, frames during the pause, the
    pause's timer at [tFade], frames during the fade, the fade's timer
    at [tEnd], and frames after it. *)
Definition fullRun (t0 : R) (entering : list R) (tDone : R) (holding : list R)
    (tFade : R) (fading : list R) (tEnd : R) (after : list R) : list Event :=
  Frame t0 :: map Frame entering ++
  Frame tDone :: map Frame holding ++
  Timer tFade :: map Frame fading ++
  Timer tEnd :: map Frame after.

(** A sequence of runs of [animate], each with the [fadeOut] its
    closure captured and its time stamp. *)
Definition tick (s : State) (f : bool * R) : State :=
  animate (fst f) (snd f) s.

Definition runTicks (s : State) (fs : list (bool * R)) : State :=
  fold_left tick fs s.

(** After a tick at [t] a mounted component shows the progress of [t]
    against the start time it holds; a start time of 0 can only have
    been captured by a tick at 0. *)
Definition ticked (t : R) (s : State) : Prop :=
  mounted s = true ->
  exists startTime,
    startTimeRef s = Some startTime /\
    progress s = newProgressAt t startTime /\
    (startTime = 0 -> t = 0).

(** The states a session goes through, phase by phase.  [t0] is the
    start time captured by the first frame, [due] the time the pause's
    timer is due at, [tFade] and [tEnd] the times the fade began and
    [onComplete] was called at.  Handles are positive. *)
Definition entering (t0 : R) (s : State) : Prop :=
  exists p h cs,
    s = mkState p false (Some (S h)) (Some t0) true
                [(S h, false)] (S (S h)) [] cs /\
    p < 1 /\ completions cs = [] /\ fadeStarts cs = [].

Definition holding (t0 due : R) (s : State) : Prop :=
  exists h cs,
    s = mkState 1 false (Some (S h)) (Some t0) true
                [] (S (S h)) [(due, StartFade)] cs /\
    completions cs = [] /\ fadeStarts cs = [].

Definition fading (t0 tFade : R) (s : State) : Prop :=
  exists p h cs,
    s = mkState p true (Some (S h)) (Some t0) true
                [(S h, true)] (S (S h)) [(tFade + fadeOutDuration, Complete)] cs /\
    completions cs = [] /\ fadeStarts cs = [tFade].

Definition completed (t0 tFade tEnd : R) (s : State) : Prop :=
  exists p h cs,
    s = mkState p true (Some (S h)) (Some t0) true
                [(S h, true)] (S (S h)) [] cs /\
    completions cs = [tEnd] /\ fadeStarts cs = [tFade].

End Session.

(** ** The drawn fields of a seed and the glow, in binary64 *)

Module Doubles.

Import Stdlib.Floats.PrimFloat.
#[local] Set Warnings "-inexact-float".
Local Open Scope float_scope.

(** The largest double below 1, [1 - 2^-53]: [Math.random()] returns
    doubles in [0, 1). *)
Definition maxDraw : float := 0x1.fffffffffffffp-1.

(** The eight fields of the object literal that are drawn, computed
    as the source does, in doubles. *)
Record Drawn := mkDrawn {
  startX : float;
  startY : float;
  startRotation : float;
  startScale : float;
  midX : float;
  midY : float;
  pixelIntensity : float;
  glitchOffset : float
}.

Definition seed (rnd : nat -> float) (k : nat) : Drawn :=
  {| startX := (rnd k - 0.5) * 1200;
     startY := (rnd (1 + k)%nat - 0.5) * 800;
     startRotation := (rnd (2 + k)%nat - 0.5) * 720;
     startScale := 0.1 + rnd (3 + k)%nat * 0.3;
     midX := (rnd (4 + k)%nat - 0.5) * 400;
     midY := (rnd (5 + k)%nat - 0.5) * 300;
     pixelIntensity := rnd (6 + k)%nat * 0.8 + 0.2;
     glitchOffset := rnd (7 + k)%nat * 20 - 10 |}.

(** The ranges of the drawn fields, with [startScale] below 0.4 and
    [pixelIntensity] up to 1.0. *)
Definition inRanges (d : Drawn) : bool :=
  (leb (-600) (startX d) && leb (startX d) 600 &&
   leb (-400) (startY d) && leb (startY d) 400 &&
   leb (-360) (startRotation d) && leb (startRotation d) 360 &&
   leb 0.1 (startScale d) && ltb (startScale d) 0.4 &&
   leb (-200) (midX d) && leb (midX d) 200 &&
   leb (-150) (midY d) && leb (midY d) 150 &&
   leb 0.2 (pixelIntensity d) && leb (pixelIntensity d) 1.0 &&
   leb (-10) (glitchOffset d) && leb (glitchOffset d) 10)%bool.

(** [(progress - 0.8) / 0.2], the argument of [Math.max(0, ...)] in
    [glowProgress]. *)
Definition glowRatio (progress : float) : float := (progress - 0.8) / 0.2.

End Doubles.

(** ** The loading text *)

Module Screen.

Import Stdlib.Strings.String.
Local Open Scope string_scope.

(** [getAnimationPhase]: the text under the letters. *)
Definition getAnimationPhase (progress : R) : string :=
  if Rlt_dec progress 0.15 then "Materializing quantum glyphs..."
  else if Rlt_dec progress 0.3 then "Decoding enchanted runes..."
  else if Rlt_dec progress 0.5 then "Crystallizing neural matrix..."
  else if Rlt_dec progress 0.7 then "Assembling consciousness..."
  else if Rlt_dec progress 0.9 then "Synchronizing intelligence..."
  else "Cerebra AI activated!".

(** The texts of [getAnimationPhase], in the order of its tests. *)
Definition loadingTexts : list string :=
  [ "Materializing quantum glyphs...";
    "Decoding enchanted runes...";
    "Crystallizing neural matrix...";
    "Assembling consciousness...";
    "Synchronizing intelligence...";
    "Cerebra AI activated!" ].

End Screen.

(** ** What a session keeps, whatever happens to it *)

Module Invariants.

Import Session.

(** Frame callbacks whose closure still has [fadeOut = false]: the
    ones that can set the pause's timer. *)
Definition countFalse (fs : list (nat * bool)) : nat :=
  length (filter (fun f => negb (snd f)) fs).

(** What can still lead to a call of [onComplete], and the calls of
    it made. *)
Definition tokens (s : State) : nat :=
  (countFalse (frames s) + length (timers s)
   + length (completions (calls s)))%nat.

(** The frame requested last is the only one pending, handles are
    positive, and an unmounted component has no frame pending. *)
Definition oneFrame (s : State) : Prop :=
  (exists n, nextHandle s = S n) /\
  (frames s = [] \/
   exists h c, frames s = [(S h, c)] /\ animationRef s = Some (S h)) /\
  (mounted s = false -> frames s = []).

(** Every timer and every call has its cause in the calls made: the
    pause's timer a [setProgress] of 1 at least 800 before it is due,
    the fade's timer a [setFadeOut] at least [fadeOutDuration] before
    it is due, and likewise the calls of [setFadeOut] and of
    [onComplete]. *)
Definition reachedOne (cs : list (R * Call)) (bound : R) : Prop :=
  exists tp p, In (tp, SetProgress p) cs /\ 1 <= p /\ tp + 800 <= bound.

Definition fadeBegun (cs : list (R * Call)) (bound : R) : Prop :=
  exists tf, In (tf, SetFadeOut) cs /\ reachedOne cs tf /\
             tf + fadeOutDuration <= bound.

Definition caused (s : State) : Prop :=
  (forall due, In (due, StartFade) (timers s) -> reachedOne (calls s) due) /\
  (forall due, In (due, Complete) (timers s) -> fadeBegun (calls s) due) /\
  (forall tf, In (tf, SetFadeOut) (calls s) -> reachedOne (calls s) tf) /\
  (forall tc, In (tc, OnComplete) (calls s) -> fadeBegun (calls s) tc).

End Invariants.

(** ** The host: [App] *)

Module Host.

Import Session.

(** [App]'s state [showSplash], with the splash screen it rendered:
    what the browser holds for a splash screen outlives its unmount. *)
Record App := mkApp {
  showSplash : bool;
  splash : State
}.

Definition mountApp : App := mkApp true mount.

(** [handleSplashComplete]: [setShowSplash(false)].  The render that
    follows leaves [SplashScreen] out: it is unmounted. *)
Definition handleSplashComplete (a : App) : App :=
  if showSplash a then mkApp false (step (splash a) Unmount) else a.

(** An event of the browser, then [handleSplashComplete] for each call
    of [onComplete] the splash screen made during it. *)
Definition appStep (a : App) (e : Event) : App :=
  let s := step (splash a) e in
  let made := (length (completions (calls s))
               - length (completions (calls (splash a))))%nat in
  Nat.iter made handleSplashComplete (mkApp (showSplash a) s).

Definition appRun (a : App) (trace : list Event) : App :=
  fold_left appStep trace a.

End Host.

(** * Properties *)

(** ** Easing curves *)

Section EasingFacts.

Lemma easeOutQuart_0 : easeOutQuart 0 = 0.
Proof. unfold easeOutQuart. lra. Qed.

Lemma easeOutQuart_1 : easeOutQuart 1 = 1.
Proof. unfold easeOutQuart. lra. Qed.

Lemma easeInOutCubic_0 : easeInOutCubic 0 = 0.
Proof. unfold easeInOutCubic. destruct (Rlt_dec 0 0.5); lra. Qed.

Lemma easeInOutCubic_1 : easeInOutCubic 1 = 1.
Proof. unfold easeInOutCubic. destruct (Rlt_dec 1 0.5); lra. Qed.

Lemma cube_le (a b : R) : 0 <= a -> a <= b -> a * a * a <= b * b * b.
Proof.
  intros Ha Hab.
  assert (Hsq : a * a <= b * b) by nra.
  assert (0 <= a * a) by nra.
  nra.
Qed.

Lemma easeOutQuart_mono (a b : R) :
  0 <= a -> a <= b -> b <= 1 -> easeOutQuart a <= easeOutQuart b.
Proof.
  intros Ha Hab Hb. unfold easeOutQuart.
  assert (H : (1 - b) ^ 4 <= (1 - a) ^ 4) by (apply pow_incr; lra).
  lra.
Qed.

Lemma easeInOutCubic_mono (a b : R) :
  0 <= a -> a <= b -> b <= 1 -> easeInOutCubic a <= easeInOutCubic b.
Proof.
  intros Ha Hab Hb. unfold easeInOutCubic.
  destruct (Rlt_dec a 0.5) as [La | La], (Rlt_dec b 0.5) as [Lb | Lb].
  - pose proof (cube_le a b Ha Hab). lra.
  - pose proof (cube_le a 0.5 Ha (Rlt_le _ _ La)) as H1.
    pose proof (cube_le (-2 * b + 2) 1 ltac:(lra) ltac:(lra)) as H2.
    simpl. lra.
  - lra.
  - pose proof (cube_le (-2 * b + 2) (-2 * a + 2) ltac:(lra) ltac:(lra)).
    simpl. lra.
Qed.

Lemma easeOutQuart_range (t : R) : 0 <= t <= 1 -> 0 <= easeOutQuart t <= 1.
Proof.
  intros [H0 H1]. split.
  - rewrite <- easeOutQuart_0. apply easeOutQuart_mono; lra.
  - rewrite <- easeOutQuart_1. apply easeOutQuart_mono; lra.
Qed.

Lemma easeInOutCubic_range (t : R) : 0 <= t <= 1 -> 0 <= easeInOutCubic t <= 1.
Proof.
  intros [H0 H1]. split.
  - rewrite <- easeInOutCubic_0. apply easeInOutCubic_mono; lra.
  - rewrite <- easeInOutCubic_1. apply easeInOutCubic_mono; lra.
Qed.

(** C8. [easeOutQuart t] is [1 - (1-t)^4] and [easeInOutCubic t] is
    [4t^3] below one half and [1 - (-2t+2)^3/2] from there on; both are
    nondecreasing on [0,1], send [0,1] into [0,1], and take 0 to 0 and
    1 to 1. *)
Theorem easing_curves :
  (forall t, easeOutQuart t = 1 - (1 - t) ^ 4) /\
  (forall t, t < 0.5 -> easeInOutCubic t = 4 * t ^ 3) /\
  (forall t, ~ t < 0.5 -> easeInOutCubic t = 1 - (-2 * t + 2) ^ 3 / 2) /\
  (forall a b, 0 <= a -> a <= b -> b <= 1 ->
     easeOutQuart a <= easeOutQuart b /\ easeInOutCubic a <= easeInOutCubic b) /\
  (forall t, 0 <= t <= 1 ->
     0 <= easeOutQuart t <= 1 /\ 0 <= easeInOutCubic t <= 1) /\
  easeOutQuart 0 = 0 /\ easeOutQuart 1 = 1 /\
  easeInOutCubic 0 = 0 /\ easeInOutCubic 1 = 1.
Proof.
  split; [reflexivity |].
  split.
  { intros t Ht. unfold easeInOutCubic.
    destruct (Rlt_dec t 0.5); [ring | contradiction]. }
  split.
  { intros t Ht. unfold easeInOutCubic.
    destruct (Rlt_dec t 0.5); [contradiction | reflexivity]. }
  split.
  { intros a b Ha Hab Hb.
    split; [apply easeOutQuart_mono | apply easeInOutCubic_mono]; assumption. }
  split.
  { intros t Ht.
    split; [apply easeOutQuart_range | apply easeInOutCubic_range]; assumption. }
  auto using easeOutQuart_0, easeOutQuart_1, easeInOutCubic_0, easeInOutCubic_1.
Qed.

Lemma easing_curves_witness :
  easeInOutCubic 0.25 = 4 * 0.25 ^ 3 /\
  (easeOutQuart 0.25 <= easeOutQuart 0.75 /\
   easeInOutCubic 0.25 <= easeInOutCubic 0.75) /\
  (0 <= easeOutQuart 0.5 <= 1 /\ 0 <= easeInOutCubic 0.5 <= 1).
Proof.
  destruct easing_curves as (_ & Hlow & _ & Hmono & Hrange & _).
  split; [apply Hlow; lra |].
  split; [apply Hmono; lra | apply Hrange; lra].
Defined.

End EasingFacts.

(** ** Trajectory *)

Section TrajectoryFacts.

Import Trajectory.

Variable data : LetterData.
Variable index : Z.

Lemma secondLeg_at_1 :
  secondLegX data 1 = finalX data /\ secondLegY data 1 = finalY data.
Proof.
  unfold secondLegX, secondLegY.
  replace ((1 - 0.6) / 0.4) with 1 by lra.
  rewrite easeInOutCubic_1. split; ring.
Qed.

Lemma secondLeg_at_boundary :
  secondLegX data 0.6 = midX data /\ secondLegY data 0.6 = midY data.
Proof.
  unfold secondLegX, secondLegY.
  replace ((0.6 - 0.6) / 0.4) with 0 by lra.
  rewrite easeInOutCubic_0. split; ring.
Qed.

Lemma firstLeg_at_boundary :
  firstLegX data index 0.6 = midX data /\ firstLegY data index 0.6 = midY data.
Proof.
  unfold firstLegX, firstLegY.
  replace (0.6 / 0.6) with 1 by lra.
  rewrite easeOutQuart_1. split; ring.
Qed.

Lemma getPosition_at_1 :
  getPosition data index 1
  = {| x := finalX data; y := finalY data; rotation := 0; scale := 1 |}.
Proof.
  destruct secondLeg_at_1 as [Hx Hy].
  unfold getPosition.
  destruct (Rlt_dec 1 0.6) as [L | _]; [lra |].
  cbn [fst snd]. rewrite Hx, Hy.
  replace (Rmin (1 * 1.5) 1) with 1
    by (unfold Rmin; destruct (Rle_dec (1 * 1.5) 1); lra).
  rewrite easeInOutCubic_1.
  f_equal; ring.
Qed.

(** C3. At progress 1 the position is the final one, the rotation is 0
    and the scale is 1, whatever the seed and the index. *)
Theorem convergence_at_1 :
  x (getPosition data index 1) = finalX data /\
  y (getPosition data index 1) = finalY data /\
  rotation (getPosition data index 1) = 0 /\
  scale (getPosition data index 1) = 1.
Proof. rewrite getPosition_at_1. repeat split. Qed.

(** C6. While [t < 0.4] the jitter is the sine (cosine) of the clock,
    scaled by the seed's offset and the decay [1 - t/0.4]; from
    [t = 0.4] on it is 0, and so it is 0 at [t = 0.5]. *)
Theorem glitch_window (now : R) :
  (forall t, t < 0.4 ->
     glitchX data index t now
       = sin (now * 0.01 + IZR index) * glitchOffset data * (1 - t / 0.4) /\
     glitchY data index t now
       = cos (now * 0.015 + IZR index) * glitchOffset data * 0.5 * (1 - t / 0.4)) /\
  (forall t, ~ t < 0.4 ->
     glitchX data index t now = 0 /\ glitchY data index t now = 0) /\
  glitchX data index 0.5 now = 0 /\
  glitchY data index 0.5 now = 0.
Proof.
  unfold glitchX, glitchY.
  split; [| split].
  - intros t Ht. destruct (Rlt_dec t 0.4); [| contradiction].
    replace (1 - t / 0.4) with (1 - t * 2.5) by lra. split; reflexivity.
  - intros t Ht. destruct (Rlt_dec t 0.4); [contradiction |]. split; reflexivity.
  - destruct (Rlt_dec 0.5 0.4); [lra |]. split; reflexivity.
Qed.

End TrajectoryFacts.

Section StyleFacts.

Import Trajectory.

Lemma element_out_of_range {A} (xs : list A) (index : Z) :
  (index < 0 \/ Z.of_nat (length xs) <= index)%Z -> element xs index = None.
Proof.
  intros H. unfold element.
  destruct (index <? 0)%Z eqn:E; [reflexivity |].
  apply Z.ltb_ge in E. apply nth_error_None. lia.
Qed.

Lemma element_in_range {A} (xs : list A) (index : Z) :
  (0 <= index < Z.of_nat (length xs))%Z -> exists a, element xs index = Some a.
Proof.
  intros H. unfold element.
  destruct (index <? 0)%Z eqn:E; [apply Z.ltb_lt in E; lia |].
  destruct (nth_error xs (Z.to_nat index)) eqn:N; [eauto |].
  apply nth_error_None in N. lia.
Qed.

(** C9. Asked for an index outside [0, elementCount), [getLetterStyle]
    returns nothing: it throws (the [TypeError] of reading a property
    of the missing seed); the index is not clamped. *)
Theorem out_of_range_throws (letterData : list LetterData)
    (progress : R) (fadeOut : bool) (startTime now : R) (index : Z) :
  (index < 0 \/ Z.of_nat (length letterData) <= index)%Z ->
  getLetterStyle letterData progress fadeOut startTime now index = ThrowsTypeError.
Proof.
  intros H. unfold getLetterStyle.
  rewrite (element_out_of_range _ _ H). reflexivity.
Qed.

(** Within the range a style is returned. *)
Lemma in_range_returns (letterData : list LetterData)
    (progress : R) (fadeOut : bool) (startTime now : R) (index : Z) :
  (0 <= index < Z.of_nat (length letterData))%Z ->
  exists style,
    getLetterStyle letterData progress fadeOut startTime now index = Returns style.
Proof.
  intros H. unfold getLetterStyle.
  destruct (element_in_range _ _ H) as [d ->]. eauto.
Qed.

Lemma out_of_range_throws_witness :
  getLetterStyle [sampleSeed; sampleSeed] 0.5 false 0 0 2 = ThrowsTypeError.
Proof.
  apply (out_of_range_throws [sampleSeed; sampleSeed] 0.5 false 0 0 2).
  right. simpl. lia.
Defined.

(** At progress 1 the style carries the final position: the jitter is
    over. *)
Lemma style_at_1 (letterData : list LetterData) (data : LetterData)
    (fadeOut : bool) (startTime now : R) (index : Z) :
  element letterData index = Some data ->
  exists style,
    getLetterStyle letterData 1 fadeOut startTime now index = Returns style /\
    translateX style = finalX data /\ translateY style = finalY data /\
    rotateDeg style = 0 /\ scaleBy style = 1.
Proof.
  intros E. unfold getLetterStyle. rewrite E. eexists. split; [reflexivity |].
  cbn [translateX translateY rotateDeg scaleBy].
  rewrite getPosition_at_1. cbn [x y rotation scale].
  unfold glitchX, glitchY. destruct (Rlt_dec 1 0.4); [lra |].
  repeat split; ring.
Qed.

Lemma fade_in_range (t : R) : 0 <= t <= 1 -> 0 <= Rmin (t * 2.5) 1 <= 1.
Proof.
  intros [H0 H1]. unfold Rmin. destruct (Rle_dec (t * 2.5) 1); lra.
Qed.

(** The claim of C4 as stated fails: with [fadeOut] set and the clock
    before [startTime + totalDuration + 800], the factor exceeds 1.
    Here the clock reads 0, the start time is 1000 and progress is 1:
    the opacity is 6.25. *)
Lemma opacity_above_1 :
  0 <= 1 <= 1 /\ opacity 1 true 1000 0 = 6.25 /\ ~ (0 <= opacity 1 true 1000 0 <= 1).
Proof.
  assert (E : opacity 1 true 1000 0 = 6.25).
  { unfold opacity, totalDuration, fadeOutDuration, Rmin, Rmax.
    destruct (Rle_dec (1 * 2.5) 1); [lra |].
    destruct (Rle_dec 0 (1 - (0 - (1000 + 4500 + 800)) / 1200)); lra. }
  rewrite E. repeat split; lra.
Qed.

Lemma opacity_nonneg (t : R) (fadeOut : bool) (startTime now : R) :
  0 <= t <= 1 -> 0 <= opacity t fadeOut startTime now.
Proof.
  intros Ht. pose proof (fade_in_range t Ht) as Hf.
  unfold opacity. destruct fadeOut; [| apply Hf].
  set (f := Rmax 0 _).
  assert (H0 : 0 <= f) by apply Rmax_l.
  nra.
Qed.

Lemma opacity_le_1 (t : R) (fadeOut : bool) (startTime now : R) :
  0 <= t <= 1 ->
  (fadeOut = true -> startTime + totalDuration + 800 <= now) ->
  opacity t fadeOut startTime now <= 1.
Proof.
  intros Ht Hnow. pose proof (fade_in_range t Ht) as Hf.
  unfold opacity. destruct fadeOut; [| apply Hf].
  specialize (Hnow eq_refl). unfold totalDuration, fadeOutDuration in *.
  set (f := Rmax 0 _).
  assert (H0 : 0 <= f) by apply Rmax_l.
  assert (H1 : f <= 1).
  { unfold f, Rmax.
    destruct (Rle_dec 0 (1 - (now - (startTime + 4500 + 800)) / 1200)); lra. }
  nra.
Qed.

(** C4, amended.  For [t] in [0,1] the opacity is never negative,
    whatever the clock reads; and it is at most 1 when the component is
    not fading or the clock is not before
    [startTime + totalDuration + 800], the instant the fade is taken to
    start at. *)
Theorem opacity_bounds (t : R) (fadeOut : bool) (startTime now : R) :
  0 <= t <= 1 ->
  0 <= opacity t fadeOut startTime now /\
  ((fadeOut = true -> startTime + totalDuration + 800 <= now) ->
   opacity t fadeOut startTime now <= 1).
Proof.
  intros Ht. split; [apply opacity_nonneg; exact Ht |].
  intros Hnow. apply opacity_le_1; assumption.
Qed.

(** The fade-out factor of a letter is the opacity of the whole
    composition. *)
Lemma opacity_factors (t : R) (fadeOut : bool) (startTime now : R) :
  opacity t fadeOut startTime now
  = Rmin (t * 2.5) 1 * overallOpacity fadeOut startTime now.
Proof. unfold opacity, overallOpacity. destruct fadeOut; ring. Qed.

Lemma opacity_bounds_witness :
  0 <= opacity 0.5 true 1000 6900 /\ opacity 0.5 true 1000 6900 <= 1.
Proof.
  destruct (opacity_bounds 0.5 true 1000 6900) as [Hlow Hup]; [lra |].
  split; [exact Hlow |].
  apply Hup. intros _. unfold totalDuration. lra.
Defined.

End StyleFacts.

(** ** The two legs meet at the midpoint *)

Section Continuity.

Import Trajectory.

Lemma Rabs_bounds (d : R) : - Rabs d <= d <= Rabs d.
Proof. unfold Rabs. destruct (Rcase_abs d); lra. Qed.

(** A term [d * w] plus an oscillation [s * w * c] with [|s| <= 1] is
    as small as the damping [w] makes it. *)
Lemma damped_small (d s w c A K u eps : R) :
  - A <= d <= A -> -1 <= s <= 1 -> 0 <= w <= u -> 0 <= c ->
  A + c <= K -> K * u < eps ->
  Rabs (d * w + s * w * c) < eps.
Proof.
  intros Hd Hs Hw Hc HK Hu.
  assert (H1 : d * w <= A * w) by nra.
  assert (H2 : - (A * w) <= d * w) by nra.
  assert (Hwc : 0 <= w * c) by nra.
  assert (H3 : s * w * c <= w * c).
  { replace (s * w * c) with (s * (w * c)) by ring. nra. }
  assert (H4 : - (w * c) <= s * w * c).
  { replace (s * w * c) with (s * (w * c)) by ring. nra. }
  assert (H5 : (A + c) * w <= K * w) by (apply Rmult_le_compat_r; lra).
  assert (H6 : K * w <= K * u) by (apply Rmult_le_compat_l; lra).
  apply Rabs_def1; nra.
Qed.

Lemma fourth_power_le (u : R) : 0 <= u <= 1 -> 0 <= u ^ 4 <= u.
Proof.
  intros [H0 H1].
  assert (H2 : 0 <= u * u <= u) by nra.
  assert (H3 : 0 <= u * u * u <= u) by nra.
  simpl. nra.
Qed.

Variable data : LetterData.
Variable index : Z.

Lemma firstLegX_offset (t : R) :
  firstLegX data index t - midX data
  = (startX data - midX data) * (1 - t / 0.6) ^ 4
    + sin (t * PI * 3 + IZR index) * (1 - t / 0.6) ^ 4 * 50.
Proof. unfold firstLegX, easeOutQuart. ring. Qed.

Lemma firstLegY_offset (t : R) :
  firstLegY data index t - midY data
  = (startY data - midY data) * (1 - t / 0.6) ^ 4
    + cos (t * PI * 2.5 + IZR index) * (1 - t / 0.6) ^ 4 * 30.
Proof. unfold firstLegY, easeOutQuart. ring. Qed.

Lemma getPosition_first (t : R) :
  t < 0.6 ->
  x (getPosition data index t) = firstLegX data index t /\
  y (getPosition data index t) = firstLegY data index t.
Proof.
  intros Ht. unfold getPosition. cbn [x y].
  destruct (Rlt_dec t 0.6); [split; reflexivity | contradiction].
Qed.

Lemma getPosition_second (t : R) :
  ~ t < 0.6 ->
  x (getPosition data index t) = secondLegX data t /\
  y (getPosition data index t) = secondLegY data t.
Proof.
  intros Ht. unfold getPosition. cbn [x y].
  destruct (Rlt_dec t 0.6); [contradiction | split; reflexivity].
Qed.

(** C10. The path is continuous where its two legs meet: as [t] tends
    to 0.6 from below the position tends to [(midX, midY)], which is
    also the position at [t = 0.6]; for [easeOutQuart 1 = 1], so the
    first leg's formula ends at the midpoint with its oscillation
    gone, and the second leg starts there. *)
Theorem legs_meet_at_midpoint :
  easeOutQuart 1 = 1 /\
  (firstLegX data index 0.6 = midX data /\ firstLegY data index 0.6 = midY data) /\
  (x (getPosition data index 0.6) = midX data /\
   y (getPosition data index 0.6) = midY data) /\
  (forall eps, 0 < eps ->
     exists delta, 0 < delta /\
       forall t, 0.6 - delta < t < 0.6 ->
         Rabs (x (getPosition data index t) - midX data) < eps /\
         Rabs (y (getPosition data index t) - midY data) < eps).
Proof.
  split; [exact easeOutQuart_1 |].
  split; [exact (firstLeg_at_boundary data index) |].
  split.
  { destruct (getPosition_second 0.6 ltac:(lra)) as [-> ->].
    exact (secondLeg_at_boundary data). }
  intros eps Heps.
  set (A := Rabs (startX data - midX data)).
  set (B := Rabs (startY data - midY data)).
  set (K := A + B + 50).
  assert (HA : 0 <= A) by apply Rabs_pos.
  assert (HB : 0 <= B) by apply Rabs_pos.
  assert (HK : 0 < K) by (unfold K; lra).
  exists (Rmin 0.6 (0.6 * eps / K)).
  assert (Hq : 0 < 0.6 * eps / K).
  { apply Rdiv_lt_0_compat; lra. }
  split; [apply Rmin_glb_lt; lra |].
  intros t [Hlo Hhi].
  pose proof (Rmin_l 0.6 (0.6 * eps / K)) as Hd1.
  pose proof (Rmin_r 0.6 (0.6 * eps / K)) as Hd2.
  set (delta := Rmin 0.6 (0.6 * eps / K)) in *.
  assert (HdK : delta * K <= 0.6 * eps).
  { replace (0.6 * eps) with (0.6 * eps / K * K) by (field; lra).
    apply Rmult_le_compat_r; lra. }
  set (u := 1 - t / 0.6).
  assert (Hu : 0 <= u <= 1) by (unfold u; lra).
  assert (Hud : 0.6 * u < delta) by (unfold u; lra).
  assert (HKu : K * u < eps) by nra.
  pose proof (fourth_power_le u Hu) as Hw.
  destruct (getPosition_first t Hhi) as [-> ->].
  rewrite firstLegX_offset, firstLegY_offset. fold u.
  split.
  - apply (damped_small _ _ _ _ A K u eps);
      [apply Rabs_bounds | apply SIN_bound | exact Hw | lra | unfold K; lra | exact HKu].
  - apply (damped_small _ _ _ _ B K u eps);
      [apply Rabs_bounds | apply COS_bound | exact Hw | lra | unfold K; lra | exact HKu].
Qed.

End Continuity.

Lemma legs_meet_at_midpoint_witness :
  exists delta, 0 < delta /\
    forall t, 0.6 - delta < t < 0.6 ->
      Rabs (Trajectory.x (Trajectory.getPosition sampleSeed 3 t) - midX sampleSeed) < 1 /\
      Rabs (Trajectory.y (Trajectory.getPosition sampleSeed 3 t) - midY sampleSeed) < 1.
Proof.
  destruct (legs_meet_at_midpoint sampleSeed 3) as (_ & _ & _ & Hlim).
  apply Hlim. lra.
Defined.

(** ** Seeds *)

Section SeedFacts.

Import Seeds.

Variable rnd : nat -> R.

(** One seed reads eight draws, in the order of the object literal. *)
Lemma seed_draws (index k : nat) :
  seed index rnd k =
  ({| startX := (rnd k - 0.5) * 1200;
      startY := (rnd (1 + k)%nat - 0.5) * 800;
      startRotation := (rnd (2 + k)%nat - 0.5) * 720;
      startScale := 0.1 + rnd (3 + k)%nat * 0.3;
      midX := (rnd (4 + k)%nat - 0.5) * 400;
      midY := (rnd (5 + k)%nat - 0.5) * 300;
      finalX := INR index * -8;
      finalY := 0;
      pixelIntensity := rnd (6 + k)%nat * 0.8 + 0.2;
      glitchOffset := rnd (7 + k)%nat * 20 - 10 |}, (8 + k)%nat).
Proof. reflexivity. Qed.

Lemma mapFrom_cons {A} (a : A) (rest : list A) (index k : nat) :
  mapFrom index (a :: rest) rnd k =
  (fst (seed index rnd k) :: fst (mapFrom (S index) rest rnd (8 + k)%nat),
   snd (mapFrom (S index) rest rnd (8 + k)%nat)).
Proof.
  cbn [mapFrom]. unfold bind at 1. rewrite seed_draws. cbn [fst].
  unfold bind at 1.
  destruct (mapFrom (S index) rest rnd (8 + k)%nat) as [ds k2]. reflexivity.
Qed.

Lemma mapFrom_nth {A} (xs : list A) :
  forall index k j, (j < length xs)%nat ->
    nth_error (fst (mapFrom index xs rnd k)) j
    = Some (fst (seed (index + j)%nat rnd (8 * j + k)%nat)).
Proof.
  induction xs as [| a rest IH]; intros index k j Hj; [simpl in Hj; lia |].
  rewrite mapFrom_cons. cbn [fst].
  destruct j as [| j].
  - cbn [nth_error]. now rewrite Nat.add_0_r, Nat.mul_0_r.
  - cbn [nth_error]. rewrite IH by (simpl in Hj; lia).
    do 3 f_equal; lia.
Qed.

Lemma letterData_length {A} (xs : list A) :
  length (letterData xs rnd) = length xs.
Proof.
  unfold letterData. generalize 0%nat at 1 as index. generalize 0%nat as k.
  induction xs as [| a rest IH]; intros k index; [reflexivity |].
  rewrite mapFrom_cons. cbn [fst length]. now rewrite IH.
Qed.

Hypothesis rnd_unit : forall k, 0 <= rnd k < 1.

(** C7, amended.  Every one of the [n] seeds lies in the ranges drawn
    from: [startX] in [-600, 600], [startY] in [-400, 400],
    [startRotation] in [-360, 360], [startScale] in [0.1, 0.4), [midX]
    in [-200, 200], [midY] in [-150, 150], [pixelIntensity] in
    [0.2, 1.0] (the upper end included: in doubles it is reached),
    [glitchOffset] in [-10, 10]; and [finalX] is the index times the
    negative spacing -8, [finalY] is 0. *)
Theorem seed_ranges {A} (xs : list A) (i : nat) :
  (i < length xs)%nat ->
  exists d, nth_error (letterData xs rnd) i = Some d /\
    -600 <= startX d <= 600 /\
    -400 <= startY d <= 400 /\
    -360 <= startRotation d <= 360 /\
    0.1 <= startScale d < 0.4 /\
    -200 <= midX d <= 200 /\
    -150 <= midY d <= 150 /\
    0.2 <= pixelIntensity d <= 1.0 /\
    -10 <= glitchOffset d <= 10 /\
    (finalX d = INR i * -8 /\ -8 < 0) /\
    finalY d = 0.
Proof.
  intros Hi. unfold letterData.
  rewrite (mapFrom_nth xs 0 0 i Hi), seed_draws. cbn [fst Nat.add].
  eexists. split; [reflexivity |].
  cbn [startX startY startRotation startScale midX midY finalX finalY
       pixelIntensity glitchOffset].
  pose proof (rnd_unit (8 * i + 0)).
  pose proof (rnd_unit (1 + (8 * i + 0))).
  pose proof (rnd_unit (2 + (8 * i + 0))).
  pose proof (rnd_unit (3 + (8 * i + 0))).
  pose proof (rnd_unit (4 + (8 * i + 0))).
  pose proof (rnd_unit (5 + (8 * i + 0))).
  pose proof (rnd_unit (6 + (8 * i + 0))).
  pose proof (rnd_unit (7 + (8 * i + 0))).
  cbn [Nat.add] in *.
  repeat split; lra.
Qed.

End SeedFacts.

Lemma seed_ranges_witness :
  exists d, nth_error (Seeds.letterData letters (fun _ => 0.5)) 3 = Some d /\
    -600 <= startX d <= 600 /\
    -400 <= startY d <= 400 /\
    -360 <= startRotation d <= 360 /\
    0.1 <= startScale d < 0.4 /\
    -200 <= midX d <= 200 /\
    -150 <= midY d <= 150 /\
    0.2 <= pixelIntensity d <= 1.0 /\
    -10 <= glitchOffset d <= 10 /\
    (finalX d = INR 3 * -8 /\ -8 < 0) /\
    finalY d = 0.
Proof.
  apply (seed_ranges (fun _ => 0.5)).
  - intros _. lra.
  - unfold letters. simpl. lia.
Defined.

Module DoublesFacts.

Import Stdlib.Floats.PrimFloat.

(** The claim of C7 as stated fails at the upper end of
    [pixelIntensity]: with the largest draw, [1 - 2^-53] (a double in
    [0, 1)), the code's [Math.random() * 0.8 + 0.2] is exactly 1.0 in
    doubles, not below it. *)
Lemma pixelIntensity_reaches_1 :
  leb 0%float Doubles.maxDraw = true /\
  ltb Doubles.maxDraw 1%float = true /\
  Doubles.pixelIntensity (Doubles.seed (fun _ => Doubles.maxDraw) 0) = 1%float /\
  ltb (Doubles.pixelIntensity (Doubles.seed (fun _ => Doubles.maxDraw) 0)) 1%float
  = false.
Proof. repeat split; reflexivity. Qed.

(** At the smallest and at the largest draw the fields of a seed are
    within the ranges of the amended claim, in doubles too; there
    [startScale] stays below 0.4. *)
Lemma seed_at_extreme_draws :
  Doubles.inRanges (Doubles.seed (fun _ => 0%float) 0) = true /\
  Doubles.inRanges (Doubles.seed (fun _ => Doubles.maxDraw) 0) = true.
Proof. split; reflexivity. Qed.

(** At progress 1 the code's [(progress - 0.8) / 0.2] is
    [1 - 2^-52] in doubles: the glow stays just below 1. *)
Lemma glow_at_1 :
  Doubles.glowRatio 1%float = 0x1.ffffffffffffep-1%float /\
  ltb (Doubles.glowRatio 1%float) 1%float = true.
Proof. split; reflexivity. Qed.

End DoublesFacts.

(** ** Session *)

Section SessionFacts.

Import Session.

Ltac fields :=
  cbn [progress fadeOut animationRef startTimeRef mounted frames
       nextHandle timers calls].

Ltac fields_in H :=
  cbn [progress fadeOut animationRef startTimeRef mounted frames
       nextHandle timers calls] in H.

(** *** Progress *)

Lemma newProgressAt_mono (startTime t1 t2 : R) :
  t1 <= t2 -> newProgressAt t1 startTime <= newProgressAt t2 startTime.
Proof.
  intros H. unfold newProgressAt, totalDuration.
  apply Rle_min_compat_r. lra.
Qed.

Lemma newProgressAt_same (t : R) : newProgressAt t t = 0.
Proof.
  unfold newProgressAt, totalDuration, Rmin.
  destruct (Rle_dec ((t - t) / 4500) 1); lra.
Qed.

Lemma newProgressAt_below (t t0 : R) :
  t - t0 < totalDuration -> newProgressAt t t0 < 1.
Proof.
  unfold newProgressAt, totalDuration, Rmin. intros H.
  destruct (Rle_dec ((t - t0) / 4500) 1); lra.
Qed.

Lemma newProgressAt_full (t t0 : R) :
  totalDuration <= t - t0 -> newProgressAt t t0 = 1.
Proof.
  unfold newProgressAt, totalDuration, Rmin. intros H.
  destruct (Rle_dec ((t - t0) / 4500) 1); lra.
Qed.

Lemma startTimeAt_set (t t0 : R) : t0 <> 0 -> startTimeAt t (Some t0) = t0.
Proof.
  intros H. unfold startTimeAt.
  destruct (Req_dec_T t0 0); [contradiction | reflexivity].
Qed.

(** What one run of [animate] leaves in the component, in any state. *)
Lemma animate_fields (c : bool) (t : R) (s : State) :
  let startTime := startTimeAt t (startTimeRef s) in
  startTimeRef (animate c t s) = Some startTime /\
  mounted (animate c t s) = mounted s /\
  fadeOut (animate c t s) = fadeOut s /\
  progress (animate c t s)
    = (if mounted s then newProgressAt t startTime else progress s) /\
  calls (animate c t s)
    = (t, SetProgress (newProgressAt t startTime)) :: calls s.
Proof.
  unfold animate, setProgress, called, setTimeout, withTimers,
    requestAnimationFrame. fields.
  destruct (mounted s), c,
    (Rge_dec (newProgressAt t (startTimeAt t (startTimeRef s))) 1),
    (Rlt_dec (newProgressAt t (startTimeAt t (startTimeRef s))) 1);
    fields; repeat split; reflexivity.
Qed.

Lemma animate_ticked (c : bool) (t : R) (s : State) : ticked t (animate c t s).
Proof.
  destruct (animate_fields c t s) as (Hst & Hm & _ & Hp & _).
  intros M. rewrite Hm in M. rewrite M in Hp.
  exists (startTimeAt t (startTimeRef s)). repeat split; try assumption.
  unfold startTimeAt. destruct (startTimeRef s) as [t0 |]; [| auto].
  destruct (Req_dec_T t0 0); [auto | intros; contradiction].
Qed.

Lemma animate_progress_mono (c : bool) (t t' : R) (s : State) :
  ticked t s -> t <= t' -> progress s <= progress (animate c t' s).
Proof.
  intros T Htt.
  destruct (animate_fields c t' s) as (_ & _ & _ & Hp & _). rewrite Hp.
  destruct (mounted s) eqn:M; [| lra].
  destruct (T M) as (st & -> & -> & Hz).
  unfold startTimeAt. destruct (Req_dec_T st 0) as [Z | NZ].
  - rewrite (Hz Z), Z, newProgressAt_same, newProgressAt_same. lra.
  - apply newProgressAt_mono. exact Htt.
Qed.

Lemma runTicks_progress_mono (later : list (bool * R)) :
  forall s t, ticked t s -> StronglySorted Rle (t :: map snd later) ->
    progress s <= progress (runTicks s later).
Proof.
  induction later as [| [c t'] rest IH]; intros s t T Hs; [simpl; lra |].
  cbn [map snd] in Hs. inversion Hs as [| ? ? Hrest Hall]; subst.
  inversion Hall as [| ? ? Htt _]; subst.
  cbn [runTicks fold_left tick fst snd].
  apply Rle_trans with (progress (animate c t' s)).
  - apply (animate_progress_mono c t t' s T Htt).
  - apply (IH (animate c t' s) t'); [apply animate_ticked | exact Hrest].
Qed.

(** C5. Progress never decreases with the clock: for a fixed start
    time [min(elapsed / totalDuration, 1)] is nondecreasing in the time
    stamp, and along any sequence of ticks with nondecreasing time
    stamps the progress the component shows after a later tick is not
    smaller than after an earlier one. *)
Theorem progress_monotone :
  (forall startTime t1 t2, t1 <= t2 ->
     newProgressAt t1 startTime <= newProgressAt t2 startTime) /\
  (forall s c t later,
     StronglySorted Rle (t :: map snd later) ->
     progress (tick s (c, t)) <= progress (runTicks (tick s (c, t)) later)).
Proof.
  split; [exact newProgressAt_mono |].
  intros s c t later Hs.
  apply (runTicks_progress_mono later (tick s (c, t)) t); [| exact Hs].
  apply animate_ticked.
Qed.

Lemma progress_monotone_witness :
  newProgressAt 2000 1000 <= newProgressAt 3000 1000 /\
  progress (tick mount (false, 1000))
    <= progress (runTicks (tick mount (false, 1000)) [(false, 2000); (false, 3000)]).
Proof.
  destruct progress_monotone as [Hpure Hrun].
  split; [apply Hpure; lra |].
  apply Hrun. cbn [map snd].
  repeat constructor; lra.
Defined.

(** *** The calls made only grow *)

Lemma calls_fold_animate (t : R) (fs : list (nat * bool)) :
  forall s, exists l,
    calls (fold_left (fun st f => animate (snd f) t st) fs s) = l ++ calls s.
Proof.
  induction fs as [| f rest IH]; intros s; [exists []; reflexivity |].
  cbn [fold_left]. destruct (IH (animate (snd f) t s)) as [l ->].
  destruct (animate_fields (snd f) t s) as (_ & _ & _ & _ & ->).
  exists (l ++ [(t, SetProgress (newProgressAt t (startTimeAt t (startTimeRef s))))]).
  now rewrite <- app_assoc.
Qed.

Lemma calls_cleanup (s : State) : calls (cleanup s) = calls s.
Proof.
  unfold cleanup. destruct (animationRef s) as [h |]; [| reflexivity].
  destruct (Nat.eqb h 0); reflexivity.
Qed.

Lemma calls_runTimer (task : TimerTask) (now : R) (s : State) :
  exists l, calls (runTimer task now s) = l ++ calls s.
Proof.
  destruct task; cbn [runTimer].
  - unfold setTimeout, withTimers, setFadeOut, called. fields.
    destruct (mounted s && negb (fadeOut s)).
    + unfold requestAnimationFrame. fields. rewrite calls_cleanup. fields.
      exists [(now, SetFadeOut)]. reflexivity.
    + fields. exists [(now, SetFadeOut)]. reflexivity.
  - exists [(now, OnComplete)]. reflexivity.
Qed.

Lemma calls_step (s : State) (e : Event) :
  exists l, calls (step s e) = l ++ calls s.
Proof.
  destruct e as [now | now |]; cbn [step].
  - destruct (calls_fold_animate now (frames s) (withFrames [] s)) as [l ->].
    exists l. reflexivity.
  - destruct (timers s) as [| [due task] rest]; [exists []; reflexivity |].
    destruct (Rle_dec due now); [| exists []; reflexivity].
    destruct (calls_runTimer task now (withTimers rest s)) as [l ->].
    exists l. reflexivity.
  - destruct (mounted s); [| exists []; reflexivity].
    fields. rewrite calls_cleanup. exists []. reflexivity.
Qed.

Lemma calls_run (trace : list Event) :
  forall s, exists l, calls (run s trace) = l ++ calls s.
Proof.
  induction trace as [| e rest IH]; intros s; [exists []; reflexivity |].
  cbn [run fold_left]. destruct (IH (step s e)) as [l Hl].
  unfold run in Hl. rewrite Hl.
  destruct (calls_step s e) as [l' ->].
  exists (l ++ l'). now rewrite app_assoc.
Qed.

Lemma run_app (s : State) (pre suf : list Event) :
  run s (pre ++ suf) = run (run s pre) suf.
Proof. unfold run. apply fold_left_app. Qed.

Lemma completions_app (l cs : list (R * Call)) :
  completions (l ++ cs) = completions l ++ completions cs.
Proof. unfold completions. apply flat_map_app. Qed.

(** *** Phase by phase *)

Lemma animate_running (c fo : bool) (t p t0 : R) (a : option nat)
    (fs : list (nat * bool)) (n : nat) (ts : list (R * TimerTask))
    (cs : list (R * Call)) :
  t0 <> 0 -> (c = true \/ t - t0 < totalDuration) ->
  animate c t (mkState p fo a (Some t0) true fs n ts cs)
  = mkState (newProgressAt t t0) fo (Some n) (Some t0) true
            (fs ++ [(n, c)]) (S n) ts
            ((t, SetProgress (newProgressAt t t0)) :: cs).
Proof.
  intros H0 Hc. unfold animate. fields.
  rewrite (startTimeAt_set t t0 H0).
  unfold setProgress, called, requestAnimationFrame. fields.
  destruct Hc as [-> | Hlt].
  - destruct (Rge_dec (newProgressAt t t0) 1), (Rlt_dec (newProgressAt t t0) 1);
      reflexivity.
  - pose proof (newProgressAt_below t t0 Hlt) as Hb.
    destruct (Rge_dec (newProgressAt t t0) 1); [lra |].
    destruct (Rlt_dec (newProgressAt t t0) 1); [reflexivity | lra].
Qed.

Lemma animate_reaches_1 (fo : bool) (t p t0 : R) (a : option nat)
    (fs : list (nat * bool)) (n : nat) (ts : list (R * TimerTask))
    (cs : list (R * Call)) :
  t0 <> 0 -> totalDuration <= t - t0 ->
  animate false t (mkState p fo a (Some t0) true fs n ts cs)
  = mkState 1 fo a (Some t0) true fs n (enqueue (t + 800) StartFade ts)
            ((t, SetProgress 1) :: cs).
Proof.
  intros H0 Hge. unfold animate. fields.
  rewrite (startTimeAt_set t t0 H0), (newProgressAt_full t t0 Hge).
  unfold setProgress, called, setTimeout, withTimers. fields.
  destruct (Rge_dec 1 1); [| lra].
  destruct (Rlt_dec 1 1); [lra | reflexivity].
Qed.

Lemma first_frame (t0 : R) : t0 <> 0 -> entering t0 (step mount (Frame t0)).
Proof.
  intros H0. unfold mount, requestAnimationFrame, step, withFrames. fields.
  cbn [app fold_left snd]. unfold animate. fields. cbn [startTimeAt].
  rewrite newProgressAt_same.
  unfold setProgress, called, requestAnimationFrame. fields.
  destruct (Rge_dec 0 1); [lra |].
  destruct (Rlt_dec 0 1); [| lra].
  exists 0, 1%nat, [(t0, SetProgress 0)]. repeat split. lra.
Qed.

Lemma entering_frame (t0 t : R) (s : State) :
  t0 <> 0 -> t - t0 < totalDuration ->
  entering t0 s -> entering t0 (step s (Frame t)).
Proof.
  intros H0 Hlt (p & h & cs & -> & _ & Hc & Hf).
  unfold step, withFrames. fields. cbn [fold_left snd].
  rewrite animate_running by auto.
  exists (newProgressAt t t0), (S h), ((t, SetProgress (newProgressAt t t0)) :: cs).
  repeat split; try assumption. apply newProgressAt_below. exact Hlt.
Qed.

Lemma entering_frames (t0 : R) (ts : list R) :
  t0 <> 0 -> Forall (fun t => t - t0 < totalDuration) ts ->
  forall s, entering t0 s -> entering t0 (run s (map Frame ts)).
Proof.
  intros H0 Hts. induction Hts as [| t rest Ht _ IH]; intros s Hs; [exact Hs |].
  cbn [map run fold_left]. apply IH. apply entering_frame; assumption.
Qed.

Lemma entering_last_frame (t0 t : R) (s : State) :
  t0 <> 0 -> totalDuration <= t - t0 ->
  entering t0 s -> holding t0 (t + 800) (step s (Frame t)).
Proof.
  intros H0 Hge (p & h & cs & -> & _ & Hc & Hf).
  unfold step, withFrames. fields. cbn [fold_left snd].
  rewrite animate_reaches_1 by auto. cbn [enqueue].
  exists h, ((t, SetProgress 1) :: cs). repeat split; assumption.
Qed.

(** During the pause no frame is requested: a frame changes nothing. *)
Lemma holding_frames (t0 due : R) (ts : list R) (s : State) :
  holding t0 due s -> run s (map Frame ts) = s.
Proof.
  intros (h & cs & -> & _ & _).
  induction ts as [| t rest IH]; [reflexivity |].
  cbn [map run fold_left]. exact IH.
Qed.

Lemma holding_timer (t0 due tFade : R) (s : State) :
  due <= tFade -> holding t0 due s -> fading t0 tFade (step s (Timer tFade)).
Proof.
  intros Hdue (h & cs & -> & Hc & Hf).
  unfold step. fields. destruct (Rle_dec due tFade); [| contradiction].
  unfold runTimer, withTimers, setFadeOut, called. fields.
  cbn [andb negb]. unfold cleanup. fields. cbn [Nat.eqb].
  unfold cancelAnimationFrame, withFrames, requestAnimationFrame. fields.
  cbn [filter app]. unfold setTimeout, withTimers. fields. cbn [enqueue].
  exists 1, (S h), ((tFade, SetFadeOut) :: cs). repeat split.
  - exact Hc.
  - unfold fadeStarts in *. cbn [flat_map snd fst app]. now rewrite Hf.
Qed.

Lemma fading_frame (t0 tFade t : R) (s : State) :
  t0 <> 0 -> fading t0 tFade s -> fading t0 tFade (step s (Frame t)).
Proof.
  intros H0 (p & h & cs & -> & Hc & Hf).
  unfold step, withFrames. fields. cbn [fold_left snd].
  rewrite animate_running by auto.
  exists (newProgressAt t t0), (S h), ((t, SetProgress (newProgressAt t t0)) :: cs).
  repeat split; assumption.
Qed.

Lemma fading_frames (t0 tFade : R) (ts : list R) :
  t0 <> 0 -> forall s, fading t0 tFade s -> fading t0 tFade (run s (map Frame ts)).
Proof.
  intros H0. induction ts as [| t rest IH]; intros s Hs; [exact Hs |].
  cbn [map run fold_left]. apply IH. apply fading_frame; assumption.
Qed.

Lemma fading_timer (t0 tFade tEnd : R) (s : State) :
  tFade + fadeOutDuration <= tEnd ->
  fading t0 tFade s -> completed t0 tFade tEnd (step s (Timer tEnd)).
Proof.
  intros Hdue (p & h & cs & -> & Hc & Hf).
  unfold step. fields.
  destruct (Rle_dec (tFade + fadeOutDuration) tEnd); [| contradiction].
  unfold runTimer, withTimers, called. fields.
  exists p, h, ((tEnd, OnComplete) :: cs). repeat split.
  - unfold completions in *. cbn [flat_map snd fst app]. now rewrite Hc.
  - exact Hf.
Qed.

Lemma completed_frame (t0 tFade tEnd t : R) (s : State) :
  t0 <> 0 -> completed t0 tFade tEnd s -> completed t0 tFade tEnd (step s (Frame t)).
Proof.
  intros H0 (p & h & cs & -> & Hc & Hf).
  unfold step, withFrames. fields. cbn [fold_left snd].
  rewrite animate_running by auto.
  exists (newProgressAt t t0), (S h), ((t, SetProgress (newProgressAt t t0)) :: cs).
  repeat split; assumption.
Qed.

Lemma completed_frames (t0 tFade tEnd : R) (ts : list R) :
  t0 <> 0 ->
  forall s, completed t0 tFade tEnd s -> completed t0 tFade tEnd (run s (map Frame ts)).
Proof.
  intros H0. induction ts as [| t rest IH]; intros s Hs; [exact Hs |].
  cbn [map run fold_left]. apply IH. apply completed_frame; assumption.
Qed.

(** The phase each of these states is in. *)
Lemma phase_of_state (t0 due tFade tEnd : R) (s : State) :
  (entering t0 s -> phase s = Entering) /\
  (holding t0 due s -> phase s = HoldingComplete) /\
  (fading t0 tFade s -> phase s = FadingOut) /\
  (completed t0 tFade tEnd s -> phase s = Completed).
Proof.
  unfold phase. repeat split.
  - intros (p & h & cs & -> & Hp & Hc & _). fields. rewrite Hc.
    destruct (Rge_dec p 1); [lra | reflexivity].
  - intros (h & cs & -> & Hc & _). fields. rewrite Hc.
    destruct (Rge_dec 1 1); [reflexivity | lra].
  - intros (p & h & cs & -> & Hc & _). fields. rewrite Hc. reflexivity.
  - intros (p & h & cs & -> & Hc & _). fields. rewrite Hc. reflexivity.
Qed.

(** Unmounting leaves the component's state and the calls made as they
    are: the phase is the same. *)
Lemma phase_unmount (s : State) : phase (step s Unmount) = phase s.
Proof.
  unfold phase. cbn [step]. destruct (mounted s); [| reflexivity]. fields.
  unfold cleanup. destruct (animationRef s) as [h |]; [| reflexivity].
  destruct (Nat.eqb h 0); reflexivity.
Qed.

Lemma run_cons (s : State) (e : Event) (rest : list Event) :
  run s (e :: rest) = run (step s e) rest.
Proof. reflexivity. Qed.

(** A full run, up to the frames of the fade, and whole. *)
Lemma run_to_fade (t0 tDone tFade : R) (es hs fs : list R) :
  t0 <> 0 ->
  Forall (fun t => t - t0 < totalDuration) es ->
  totalDuration <= tDone - t0 ->
  tDone + 800 <= tFade ->
  fading t0 tFade
    (run mount (Frame t0 :: map Frame es ++
                Frame tDone :: map Frame hs ++
                Timer tFade :: map Frame fs)).
Proof.
  intros H0 Hes Hdone Hfade.
  rewrite run_cons, run_app, run_cons, run_app, run_cons.
  apply fading_frames; [exact H0 |].
  pose proof (entering_last_frame t0 tDone _ H0 Hdone
                (entering_frames t0 es H0 Hes _ (first_frame t0 H0))) as Hh.
  rewrite (holding_frames t0 (tDone + 800) hs _ Hh).
  apply (holding_timer t0 (tDone + 800) tFade _ Hfade Hh).
Qed.

Lemma run_to_end (t0 tDone tFade tEnd : R) (es hs fs gs : list R) :
  t0 <> 0 ->
  Forall (fun t => t - t0 < totalDuration) es ->
  totalDuration <= tDone - t0 ->
  tDone + 800 <= tFade ->
  tFade + fadeOutDuration <= tEnd ->
  completed t0 tFade tEnd (run mount (fullRun t0 es tDone hs tFade fs tEnd gs)).
Proof.
  intros H0 Hes Hdone Hfade Hend. unfold fullRun.
  replace (Frame t0 :: map Frame es ++ Frame tDone :: map Frame hs ++
           Timer tFade :: map Frame fs ++ Timer tEnd :: map Frame gs)
    with ((Frame t0 :: map Frame es ++ Frame tDone :: map Frame hs ++
           Timer tFade :: map Frame fs) ++ Timer tEnd :: map Frame gs).
  2:{ cbn [app]. rewrite <- !app_assoc. cbn [app]. rewrite <- !app_assoc.
      reflexivity. }
  rewrite run_app, run_cons.
  apply completed_frames; [exact H0 |].
  apply fading_timer; [exact Hend |].
  apply run_to_fade; assumption.
Qed.

(** C1. Across a full run [onComplete] is called exactly once, at the
    time [tEnd] the fade's timer fires, which is not before the fade
    (begun at [tFade]) has lasted [fadeOutDuration]; up to that timer
    it has not been called, and at no point of the run has it been
    called more than once or before the fade's end.  ([t0 <> 0]: a
    first time stamp of 0 would be taken for an unset start time.) *)
Theorem onComplete_exactly_once (t0 tDone tFade tEnd : R) (es hs fs gs : list R) :
  t0 <> 0 ->
  Forall (fun t => t - t0 < totalDuration) es ->
  totalDuration <= tDone - t0 ->
  tDone + 800 <= tFade ->
  tFade + fadeOutDuration <= tEnd ->
  let trace := fullRun t0 es tDone hs tFade fs tEnd gs in
  completions (calls (run mount trace)) = [tEnd] /\
  fadeStarts (calls (run mount trace)) = [tFade] /\
  completions (calls (run mount (Frame t0 :: map Frame es ++
                                 Frame tDone :: map Frame hs ++
                                 Timer tFade :: map Frame fs))) = [] /\
  (forall pre suf, trace = pre ++ suf ->
     (length (completions (calls (run mount pre))) <= 1)%nat /\
     (forall tc, In tc (completions (calls (run mount pre))) ->
        tFade + fadeOutDuration <= tc)).
Proof.
  intros H0 Hes Hdone Hfade Hend trace.
  destruct (run_to_end t0 tDone tFade tEnd es hs fs gs H0 Hes Hdone Hfade Hend)
    as (p & h & cs & Hs & Hc & Hf).
  fold trace in Hs.
  assert (Hcalls : calls (run mount trace) = cs) by (rewrite Hs; reflexivity).
  rewrite Hcalls.
  split; [exact Hc |]. split; [exact Hf |]. split.
  { destruct (run_to_fade t0 tDone tFade es hs fs H0 Hes Hdone Hfade)
      as (p' & h' & cs' & -> & Hc' & _). exact Hc'. }
  intros pre suf Hsplit.
  destruct (calls_run suf (run mount pre)) as [l Hl].
  rewrite <- run_app, <- Hsplit, Hcalls in Hl.
  rewrite Hl, completions_app in Hc.
  assert (Hlen : (length (completions l) + length (completions (calls (run mount pre))) = 1)%nat).
  { rewrite <- length_app, Hc. reflexivity. }
  split; [lia |].
  intros tc Hin.
  assert (Hin' : In tc [tEnd]).
  { rewrite <- Hc. apply in_or_app. right. exact Hin. }
  destruct Hin' as [<- | []]. exact Hend.
Qed.

Lemma onComplete_exactly_once_witness :
  completions
    (calls (run mount (fullRun 1000 [2000; 4000] 5500 [5600] 6300 [6400; 7000] 7500 [7600])))
  = [7500].
Proof.
  refine (proj1 (onComplete_exactly_once 1000 5500 6300 7500
                   [2000; 4000] [5600] [6400; 7000] [7600] _ _ _ _ _)).
  - lra.
  - unfold totalDuration. repeat constructor; lra.
  - unfold totalDuration. lra.
  - lra.
  - unfold fadeOutDuration. lra.
Defined.

(** *** Unmounting *)

(** While entering, the cleanup cancels the one frame requested and no
    timer is set: after unmounting nothing happens any more. *)
Lemma unmount_while_entering (t0 : R) (s : State) (trace : list Event) :
  entering t0 s ->
  mounted (step s Unmount) = false /\
  run (step s Unmount) trace = step s Unmount.
Proof.
  intros (p & h & cs & -> & _ & _ & _).
  assert (E : step (mkState p false (Some (S h)) (Some t0) true
                            [(S h, false)] (S (S h)) [] cs) Unmount
              = mkState p false (Some (S h)) (Some t0) false [] (S (S h)) [] cs).
  { unfold step, cleanup, cancelAnimationFrame, withFrames. fields.
    cbn [Nat.eqb filter fst]. rewrite Nat.eqb_refl. reflexivity. }
  rewrite E. split; [reflexivity |].
  induction trace as [| e rest IH]; [reflexivity |].
  rewrite run_cons. destruct e; exact IH.
Qed.

(** During the pause and during the fade a timer is pending, and the
    cleanup leaves it: it fires after the unmount. *)
Lemma unmount_while_holding (t0 due tFade tEnd : R) (s : State) :
  due <= tFade -> tFade + fadeOutDuration <= tEnd ->
  holding t0 due s ->
  mounted (step s Unmount) = false /\
  calls (run s [Unmount; Timer tFade; Timer tEnd])
  = (tEnd, OnComplete) :: (tFade, SetFadeOut) :: calls s.
Proof.
  intros Hdue Hend (h & cs & -> & _ & _).
  unfold run. cbn [fold_left].
  set (s1 := step _ Unmount).
  assert (E1 : s1 = mkState 1 false (Some (S h)) (Some t0) false [] (S (S h))
                            [(due, StartFade)] cs) by reflexivity.
  rewrite E1. split; [reflexivity |].
  set (s2 := step _ (Timer tFade)).
  assert (E2 : s2 = mkState 1 false (Some (S h)) (Some t0) false [] (S (S h))
                            [(tFade + fadeOutDuration, Complete)]
                            ((tFade, SetFadeOut) :: cs)).
  { unfold s2, step. fields. destruct (Rle_dec due tFade); [| contradiction].
    reflexivity. }
  rewrite E2. unfold step. fields.
  destruct (Rle_dec (tFade + fadeOutDuration) tEnd); [| contradiction].
  reflexivity.
Qed.

Lemma unmount_while_fading (t0 tFade tEnd : R) (s : State) :
  tFade + fadeOutDuration <= tEnd ->
  fading t0 tFade s ->
  mounted (step s Unmount) = false /\
  calls (run s [Unmount; Timer tEnd]) = (tEnd, OnComplete) :: calls s.
Proof.
  intros Hend (p & h & cs & -> & _ & _).
  unfold run. cbn [fold_left].
  set (s1 := step _ Unmount).
  assert (E1 : s1 = mkState p true (Some (S h)) (Some t0) false [] (S (S h))
                            [(tFade + fadeOutDuration, Complete)] cs).
  { unfold s1, step, cleanup, cancelAnimationFrame, withFrames. fields.
    cbn [Nat.eqb filter fst]. rewrite Nat.eqb_refl. reflexivity. }
  rewrite E1. split; [reflexivity |].
  unfold step. fields.
  destruct (Rle_dec (tFade + fadeOutDuration) tEnd); [| contradiction].
  reflexivity.
Qed.

Lemma calls_unmount (s : State) : calls (step s Unmount) = calls s.
Proof.
  cbn [step]. destruct (mounted s); [fields; apply calls_cleanup | reflexivity].
Qed.

(** C2, on the code.  The session is unmounted during the pause (first
    frame at 1000, progress 1 reached by the frame at 5500, unmount,
    then the timers at 6300 and 7500): after the unmount [setFadeOut]
    is still called and [onComplete] is still called.  Likewise when
    it is unmounted during the fade (timer at 6300, a frame at 6400,
    unmount, then the timer at 7500): [onComplete] is still called. *)
Theorem timers_outlive_unmount :
  (let disposed := run mount [Frame 1000; Frame 5500; Unmount] in
   phase disposed = HoldingComplete /\
   mounted disposed = false /\
   completions (calls disposed) = [] /\
   calls (run disposed [Timer 6300; Timer 7500])
   = (7500, OnComplete) :: (6300, SetFadeOut) :: calls disposed) /\
  (let disposed := run mount [Frame 1000; Frame 5500; Timer 6300; Frame 6400; Unmount] in
   phase disposed = FadingOut /\
   mounted disposed = false /\
   completions (calls disposed) = [] /\
   calls (run disposed [Timer 7500]) = (7500, OnComplete) :: calls disposed).
Proof.
  assert (H0 : 1000 <> 0) by lra.
  assert (Hdone : totalDuration <= 5500 - 1000) by (unfold totalDuration; lra).
  assert (Hfade : 5500 + 800 <= 6300) by lra.
  assert (Hend : 6300 + fadeOutDuration <= 7500) by (unfold fadeOutDuration; lra).
  pose proof (entering_last_frame 1000 5500 _ H0 Hdone (first_frame 1000 H0)) as Hh.
  split.
  - change (run mount [Frame 1000; Frame 5500; Unmount])
      with (step (step (step mount (Frame 1000)) (Frame 5500)) Unmount).
    set (s := step (step mount (Frame 1000)) (Frame 5500)) in *.
    destruct (unmount_while_holding 1000 (5500 + 800) 6300 7500 s Hfade Hend Hh)
      as [Hm Hcalls].
    pose proof (calls_unmount s) as Hsame.
    cbv zeta. split; [| split; [exact Hm | rewrite Hsame; split]].
    + rewrite phase_unmount.
      apply (proj1 (proj2 (phase_of_state 1000 (5500 + 800) 0 0 s))). exact Hh.
    + destruct Hh as (h & cs & -> & Hc & _). exact Hc.
    + exact Hcalls.
  - pose proof (fading_frame 1000 6300 6400 _ H0
                  (holding_timer 1000 (5500 + 800) 6300 _ Hfade Hh)) as Hf.
    change (run mount [Frame 1000; Frame 5500; Timer 6300; Frame 6400; Unmount])
      with (step (step (step (step (step mount (Frame 1000)) (Frame 5500))
                          (Timer 6300)) (Frame 6400)) Unmount).
    set (s := step (step (step (step mount (Frame 1000)) (Frame 5500))
                      (Timer 6300)) (Frame 6400)) in *.
    destruct (unmount_while_fading 1000 6300 7500 s Hend Hf) as [Hm Hcalls].
    pose proof (calls_unmount s) as Hsame.
    cbv zeta. split; [| split; [exact Hm | rewrite Hsame; split]].
    + rewrite phase_unmount.
      apply (proj1 (proj2 (proj2 (phase_of_state 1000 0 6300 0 s)))). exact Hf.
    + destruct Hf as (p & h & cs & -> & Hc & _). exact Hc.
    + exact Hcalls.
Qed.

(** *** The fade factor in a run *)

(** In a run the fade starts no earlier than
    [startTime + totalDuration + 800]: once [fadeOut] is set the
    opacity of every letter stays within [0,1] at any later clock
    value. *)
Lemma opacity_while_fading (t0 tDone tFade : R) (es hs fs : list R) :
  t0 <> 0 ->
  Forall (fun t => t - t0 < totalDuration) es ->
  totalDuration <= tDone - t0 ->
  tDone + 800 <= tFade ->
  let s := run mount (Frame t0 :: map Frame es ++
                      Frame tDone :: map Frame hs ++
                      Timer tFade :: map Frame fs) in
  fadeOut s = true /\ startTimeRef s = Some t0 /\
  forall t now, 0 <= t <= 1 -> tFade <= now ->
    0 <= Trajectory.opacity t (fadeOut s) t0 now <= 1.
Proof.
  intros H0 Hes Hdone Hfade s.
  destruct (run_to_fade t0 tDone tFade es hs fs H0 Hes Hdone Hfade)
    as (p & h & cs & Hs & _ & _).
  fold s in Hs. rewrite Hs. fields.
  repeat split.
  - apply opacity_nonneg; assumption.
  - apply opacity_le_1; [assumption |]. intros _. lra.
Qed.

End SessionFacts.

Lemma glitch_window_witness :
  Trajectory.glitchX sampleSeed 2 0.2 1234
  = sin (1234 * 0.01 + IZR 2) * glitchOffset sampleSeed * (1 - 0.2 / 0.4) /\
  Trajectory.glitchX sampleSeed 2 0.4 1234 = 0.
Proof.
  destruct (glitch_window sampleSeed 2 1234) as (Hin & Hout & _).
  split.
  - apply (proj1 (Hin 0.2 ltac:(lra))).
  - apply (proj1 (Hout 0.4 ltac:(lra))).
Defined.

(** * Further properties of the trajectory *)

Section ShapeOfMotion.

Import Trajectory.

Variable data : LetterData.
Variable index : Z.

Lemma Rmin_unit (u : R) : 0 <= u -> 0 <= Rmin u 1 <= 1.
Proof. intros H. unfold Rmin. destruct (Rle_dec u 1); lra. Qed.

Lemma Rmin_saturated (u : R) : 1 <= u -> Rmin u 1 = 1.
Proof. intros H. unfold Rmin. destruct (Rle_dec u 1); lra. Qed.

Lemma Rmin_1_mono (u v : R) : u <= v -> Rmin u 1 <= Rmin v 1.
Proof. intros H. apply Rle_min_compat_r. exact H. Qed.

(** The eased fraction of a clamped multiple of [t]. *)
Lemma eased_clamp_range (k t : R) :
  0 <= k -> 0 <= t -> 0 <= easeInOutCubic (Rmin (t * k) 1) <= 1.
Proof.
  intros Hk Ht. apply easeInOutCubic_range. apply Rmin_unit. nra.
Qed.

Lemma eased_clamp_mono (k a b : R) :
  0 <= k -> 0 <= a -> a <= b ->
  easeInOutCubic (Rmin (a * k) 1) <= easeInOutCubic (Rmin (b * k) 1).
Proof.
  intros Hk Ha Hab.
  assert (Hak : 0 <= a * k) by nra.
  assert (Hle : a * k <= b * k) by nra.
  destruct (Rmin_unit (a * k) Hak) as [H0 _].
  destruct (Rmin_unit (b * k) ltac:(lra)) as [_ H1].
  apply easeInOutCubic_mono; [exact H0 | apply Rmin_1_mono; exact Hle | exact H1].
Qed.

Lemma scale_eq (t : R) :
  scale (getPosition data index t)
  = startScale data
    + (1 - startScale data) * easeInOutCubic (Rmin (t * 1.5) 1).
Proof. unfold getPosition. cbn [scale]. ring. Qed.

(** The scale starts at [startScale], grows with [t] towards 1 (for a
    start scale of at most 1, as the seeds have), and is exactly 1
    from [t = 2/3] on, before the journey ends. *)
Theorem scale_settles (a b : R) :
  0 <= a -> a <= b -> startScale data <= 1 ->
  scale (getPosition data index 0) = startScale data /\
  startScale data <= scale (getPosition data index a) /\
  scale (getPosition data index a) <= scale (getPosition data index b) /\
  scale (getPosition data index b) <= 1 /\
  (2 / 3 <= b -> scale (getPosition data index b) = 1).
Proof.
  intros Ha Hab Hs. rewrite !scale_eq.
  pose proof (eased_clamp_range 1.5 a ltac:(lra) Ha) as Ra.
  pose proof (eased_clamp_range 1.5 b ltac:(lra) ltac:(lra)) as Rb.
  pose proof (eased_clamp_mono 1.5 a b ltac:(lra) Ha Hab) as Hm.
  repeat split.
  - replace (0 * 1.5) with 0 by ring.
    replace (Rmin 0 1) with 0 by (unfold Rmin; destruct (Rle_dec 0 1); lra).
    rewrite easeInOutCubic_0. ring.
  - nra.
  - nra.
  - nra.
  - intros Hb. rewrite (Rmin_saturated (b * 1.5)) by lra.
    rewrite easeInOutCubic_1. ring.
Qed.

Lemma rotation_eq (t : R) :
  rotation (getPosition data index t)
  = startRotation data * (1 - easeInOutCubic t).
Proof. reflexivity. Qed.

(** The rotation starts at [startRotation] and unwinds: over [0,1] its
    magnitude never grows and never exceeds that of [startRotation]. *)
Theorem rotation_unwinds (a b : R) :
  0 <= a -> a <= b -> b <= 1 ->
  rotation (getPosition data index 0) = startRotation data /\
  Rabs (rotation (getPosition data index b))
    <= Rabs (rotation (getPosition data index a)) /\
  Rabs (rotation (getPosition data index a)) <= Rabs (startRotation data).
Proof.
  intros Ha Hab Hb. rewrite !rotation_eq, easeInOutCubic_0.
  pose proof (easeInOutCubic_range a ltac:(lra)) as Ra.
  pose proof (easeInOutCubic_range b ltac:(lra)) as Rb.
  pose proof (easeInOutCubic_mono a b Ha Hab Hb) as Hm.
  pose proof (Rabs_pos (startRotation data)) as Hp.
  split; [ring |].
  rewrite !Rabs_mult.
  rewrite (Rabs_pos_eq (1 - easeInOutCubic a)) by lra.
  rewrite (Rabs_pos_eq (1 - easeInOutCubic b)) by lra.
  split; nra.
Qed.

(** The pixelation is largest at the start ([8 * pixelIntensity]),
    never grows with the progress, and is gone from progress 5/9 on. *)
Theorem pixelation_fades (a b : R) :
  0 <= a -> a <= b -> 0 <= pixelIntensity data ->
  pixelSize data 0 = pixelIntensity data * 8 /\
  0 <= pixelSize data b /\
  pixelSize data b <= pixelSize data a /\
  pixelSize data a <= pixelIntensity data * 8 /\
  (5 / 9 <= b -> pixelSize data b = 0).
Proof.
  intros Ha Hab Hi. unfold pixelSize.
  pose proof (eased_clamp_range 1.8 a ltac:(lra) Ha) as Ra.
  pose proof (eased_clamp_range 1.8 b ltac:(lra) ltac:(lra)) as Rb.
  pose proof (eased_clamp_mono 1.8 a b ltac:(lra) Ha Hab) as Hm.
  repeat split.
  - replace (0 * 1.8) with 0 by ring.
    replace (Rmin 0 1) with 0 by (unfold Rmin; destruct (Rle_dec 0 1); lra).
    rewrite easeInOutCubic_0. ring.
  - nra.
  - nra.
  - nra.
  - intros Hb. rewrite (Rmin_saturated (b * 1.8)) by lra.
    rewrite easeInOutCubic_1. ring.
Qed.

(** The glow is off up to progress 0.8, then rises linearly and
    without ever decreasing, and is at most 1 up to progress 1.  (At
    progress 1 the ratio is 1 over the reals; in doubles it stays one
    step below, see [DoublesFacts.glow_at_1].) *)
Theorem glow_ramp (a b : R) :
  a <= b -> b <= 1 ->
  (b <= 0.8 -> glowIntensity b = 0) /\
  (0.8 <= b -> glowIntensity b = (b - 0.8) / 0.2) /\
  glowIntensity a <= glowIntensity b /\
  0 <= glowIntensity a /\ glowIntensity b <= 1.
Proof.
  intros Hab Hb. unfold glowIntensity, Rmax.
  destruct (Rle_dec 0 ((a - 0.8) / 0.2)), (Rle_dec 0 ((b - 0.8) / 0.2));
    repeat split; intros; lra.
Qed.

End ShapeOfMotion.

Lemma scale_settles_witness :
  Trajectory.scale (Trajectory.getPosition sampleSeed 2 0.7) = 1.
Proof.
  refine (proj2 (proj2 (proj2 (proj2
            (scale_settles sampleSeed 2 0.5 0.7 _ _ _)))) _);
    unfold sampleSeed; cbn [startScale]; lra.
Defined.

Lemma rotation_unwinds_witness :
  Rabs (Trajectory.rotation (Trajectory.getPosition sampleSeed 2 0.25))
    <= Rabs (startRotation sampleSeed).
Proof.
  refine (proj2 (proj2 (rotation_unwinds sampleSeed 2 0.25 0.75 _ _ _))); lra.
Defined.

Lemma pixelation_fades_witness : Trajectory.pixelSize sampleSeed 0.6 = 0.
Proof.
  refine (proj2 (proj2 (proj2 (proj2
            (pixelation_fades sampleSeed 0.25 0.6 _ _ _)))) _);
    unfold sampleSeed; cbn [pixelIntensity]; lra.
Defined.

Lemma glow_ramp_witness : Trajectory.glowIntensity 0.9 = (0.9 - 0.8) / 0.2.
Proof.
  refine (proj1 (proj2 (glow_ramp 0.5 0.9 _ _)) _); lra.
Defined.

Section WhereTheLetterIs.

Import Trajectory.

Variable data : LetterData.
Variable index : Z.




(** The jitter is never larger than the seed's offset (half of it
    vertically), at any clock value. *)
Theorem glitch_bounded (progress now : R) :
  0 <= progress ->
  Rabs (glitchX data index progress now) <= Rabs (glitchOffset data) /\
  Rabs (glitchY data index progress now) <= Rabs (glitchOffset data) / 2.
Proof.
  intros Hp. unfold glitchX, glitchY.
  pose proof (Rabs_pos (glitchOffset data)) as Ho.
  destruct (Rlt_dec progress 0.4) as [L | L].
  2:{ rewrite Rabs_R0. lra. }
  pose proof (SIN_bound (now * 0.01 + IZR index)) as Hs.
  pose proof (COS_bound (now * 0.015 + IZR index)) as Hc.
  assert (As : Rabs (sin (now * 0.01 + IZR index)) <= 1)
    by (apply Rabs_le; lra).
  assert (Ac : Rabs (cos (now * 0.015 + IZR index)) <= 1)
    by (apply Rabs_le; lra).
  pose proof (Rabs_pos (sin (now * 0.01 + IZR index))).
  pose proof (Rabs_pos (cos (now * 0.015 + IZR index))).
  rewrite !Rabs_mult.
  rewrite (Rabs_pos_eq (1 - progress * 2.5)) by lra.
  rewrite (Rabs_pos_eq 0.5) by lra.
  assert (Hd : 0 <= 1 - progress * 2.5 <= 1) by lra.
  set (S := Rabs (sin _)) in *. set (C := Rabs (cos _)) in *.
  set (O := Rabs (glitchOffset data)) in *.
  assert (HSO : 0 <= S * O <= O) by nra.
  assert (HCO : 0 <= C * O <= O) by nra.
  split; nra.
Qed.

End WhereTheLetterIs.


Lemma glitch_bounded_witness :
  Rabs (Trajectory.glitchX sampleSeed 2 0.1 1234) <= Rabs (glitchOffset sampleSeed).
Proof.
  refine (proj1 (glitch_bounded sampleSeed 2 0.1 1234 _)); lra.
Defined.

Section FadeOut.

Import Trajectory.

(** With [fadeOut] set, the opacity of the composition is 1 at the
    instant [startTime + totalDuration + 800], never rises with the
    clock from there, and is 0 once [fadeOutDuration] has passed: then
    every letter's opacity is 0 as well. *)
Theorem fade_out_completes (startTime now1 now2 : R) :
  startTime + totalDuration + 800 <= now1 -> now1 <= now2 ->
  overallOpacity true startTime (startTime + totalDuration + 800) = 1 /\
  overallOpacity true startTime now1 <= 1 /\
  overallOpacity true startTime now2 <= overallOpacity true startTime now1 /\
  0 <= overallOpacity true startTime now2 /\
  (startTime + totalDuration + 800 + fadeOutDuration <= now2 ->
     overallOpacity true startTime now2 = 0 /\
     forall t, opacity t true startTime now2 = 0).
Proof.
  intros H1 H12.
  assert (Hz : startTime + totalDuration + 800 + fadeOutDuration <= now2 ->
               overallOpacity true startTime now2 = 0).
  { unfold overallOpacity, totalDuration, fadeOutDuration, Rmax in *. intros H.
    destruct (Rle_dec 0 (1 - (now2 - (startTime + 4500 + 800)) / 1200)); lra. }
  split; [| split; [| split; [| split]]].
  - unfold overallOpacity, totalDuration, fadeOutDuration, Rmax.
    destruct (Rle_dec 0 (1 - (startTime + 4500 + 800 - (startTime + 4500 + 800)) / 1200));
      lra.
  - unfold overallOpacity, totalDuration, fadeOutDuration, Rmax in *.
    destruct (Rle_dec 0 (1 - (now1 - (startTime + 4500 + 800)) / 1200)); lra.
  - unfold overallOpacity, totalDuration, fadeOutDuration, Rmax in *.
    destruct (Rle_dec 0 (1 - (now1 - (startTime + 4500 + 800)) / 1200)),
      (Rle_dec 0 (1 - (now2 - (startTime + 4500 + 800)) / 1200)); lra.
  - unfold overallOpacity. apply Rmax_l.
  - intros H. split; [exact (Hz H) |].
    intros t. rewrite opacity_factors, (Hz H). ring.
Qed.

Lemma fade_out_completes_witness :
  overallOpacity true 1000 7500 = 0 /\ forall t, opacity t true 1000 7500 = 0.
Proof.
  refine (proj2 (proj2 (proj2 (proj2
            (fade_out_completes 1000 6300 7500 _ _)))) _);
    unfold totalDuration, fadeOutDuration; lra.
Defined.

End FadeOut.

Section StyleStages.

Import Trajectory.

(** Once the pixelation is gone (progress 5/9 on) the look of a letter
    depends on the progress alone: nothing up to 0.7, a faint shadow up
    to 0.8, then the glow, whose radii and brightness grow with the
    glow intensity; the letter pulses exactly when the progress exceeds
    0.9, and is no longer rendered pixelated. *)
Theorem style_after_pixelation (letterData : list LetterData) (data : LetterData)
    (progress : R) (fadeOut : bool) (startTime now : R) (index : Z) :
  element letterData index = Some data ->
  5 / 9 <= progress -> progress <= 1 ->
  exists style,
    getLetterStyle letterData progress fadeOut startTime now index = Returns style /\
    pixelated style = false /\
    (progress <= 0.7 ->
       styleTextShadow style = ShadowEmpty /\ styleFilter style = FilterNone) /\
    (0.7 < progress -> progress <= 0.8 ->
       styleTextShadow style = ShadowFaint /\ styleFilter style = FilterNone) /\
    (0.8 < progress ->
       styleTextShadow style
         = ShadowGlow (10 + glowIntensity progress * 20)
                      (20 + glowIntensity progress * 40) /\
       styleFilter style
         = FilterGlow (1 + glowIntensity progress * 0.3)
                      (1 + glowIntensity progress * 0.2)) /\
    (animatePulse style = true <-> 0.9 < progress).
Proof.
  intros E Hlo Hhi. unfold getLetterStyle. rewrite E.
  eexists. split; [reflexivity |].
  cbn [pixelated styleTextShadow styleFilter animatePulse].
  assert (Hpx : pixelSize data progress = 0).
  { unfold pixelSize. rewrite (Rmin_saturated (progress * 1.8)) by lra.
    rewrite easeInOutCubic_1. ring. }
  rewrite Hpx. unfold textShadow, pixelFilter.
  destruct (Rgt_dec 0 1); [lra |].
  destruct (Rgt_dec 0 0.5); [lra |].
  destruct (Rgt_dec 0 0.1); [lra |].
  assert (Hg0 : progress <= 0.8 -> glowIntensity progress = 0).
  { intros H. unfold glowIntensity, Rmax.
    destruct (Rle_dec 0 ((progress - 0.8) / 0.2)); lra. }
  assert (Hg1 : 0.8 <= progress -> glowIntensity progress = (progress - 0.8) / 0.2).
  { intros H. unfold glowIntensity, Rmax.
    destruct (Rle_dec 0 ((progress - 0.8) / 0.2)); lra. }
  split; [reflexivity |]. split; [| split; [| split]].
  - intros H. rewrite (Hg0 ltac:(lra)).
    destruct (Rgt_dec 0 0); [lra |].
    destruct (Rgt_dec progress 0.7); [lra |]. split; reflexivity.
  - intros H7 H8. rewrite (Hg0 H8).
    destruct (Rgt_dec 0 0); [lra |].
    destruct (Rgt_dec progress 0.7); [| lra]. split; reflexivity.
  - intros H8. pose proof (Hg1 ltac:(lra)) as Hg.
    destruct (Rgt_dec (glowIntensity progress) 0); [| lra]. split; reflexivity.
  - destruct (Rle_dec progress 0.8) as [L | L].
    + rewrite (Hg0 L). destruct (Rgt_dec 0 0.5); [lra |].
      split; intros H; [discriminate | lra].
    + pose proof (Hg1 ltac:(lra)) as Hg.
      destruct (Rgt_dec (glowIntensity progress) 0.5);
        split; intros H; try reflexivity; try discriminate; lra.
Qed.

Lemma style_after_pixelation_witness :
  exists style,
    getLetterStyle [sampleSeed; sampleSeed] 0.75 false 0 0 1 = Returns style /\
    styleTextShadow style = ShadowFaint.
Proof.
  destruct (style_after_pixelation [sampleSeed; sampleSeed] sampleSeed
              0.75 false 0 0 1 eq_refl ltac:(lra) ltac:(lra))
    as (style & E & _ & _ & Hfaint & _).
  exists style. split; [exact E |].
  apply Hfaint; lra.
Defined.

End StyleStages.

(** * The loading text *)

Section LoadingText.

Import Screen.

Lemma text_stage (p : R) :
  exists i, nth_error loadingTexts i = Some (getAnimationPhase p) /\
    ((i = 0%nat /\ p < 0.15) \/ (i = 1%nat /\ 0.15 <= p < 0.3) \/
     (i = 2%nat /\ 0.3 <= p < 0.5) \/ (i = 3%nat /\ 0.5 <= p < 0.7) \/
     (i = 4%nat /\ 0.7 <= p < 0.9) \/ (i = 5%nat /\ 0.9 <= p)).
Proof.
  unfold getAnimationPhase, loadingTexts.
  destruct (Rlt_dec p 0.15).
  { exists 0%nat. split; [reflexivity |]. left. split; [reflexivity | lra]. }
  destruct (Rlt_dec p 0.3).
  { exists 1%nat. split; [reflexivity |].
    right; left. split; [reflexivity | lra]. }
  destruct (Rlt_dec p 0.5).
  { exists 2%nat. split; [reflexivity |].
    do 2 right; left. split; [reflexivity | lra]. }
  destruct (Rlt_dec p 0.7).
  { exists 3%nat. split; [reflexivity |].
    do 3 right; left. split; [reflexivity | lra]. }
  destruct (Rlt_dec p 0.9).
  { exists 4%nat. split; [reflexivity |].
    do 4 right; left. split; [reflexivity | lra]. }
  exists 5%nat. split; [reflexivity |].
  do 5 right. split; [reflexivity | lra].
Qed.

(** The loading text only moves forward through its six texts as the
    progress grows; the first is shown exactly below 0.15 and the last
    exactly from 0.9 on. *)
Theorem loading_text_advances (p q : R) :
  p <= q ->
  (exists i j, (i <= j)%nat /\
     nth_error loadingTexts i = Some (getAnimationPhase p) /\
     nth_error loadingTexts j = Some (getAnimationPhase q)) /\
  (nth_error loadingTexts 0 = Some (getAnimationPhase p) <-> p < 0.15) /\
  (nth_error loadingTexts 5 = Some (getAnimationPhase q) <-> 0.9 <= q).
Proof.
  intros Hpq. split; [| split].
  - destruct (text_stage p) as (i & Hi & Si), (text_stage q) as (j & Hj & Sj).
    exists i, j. split; [| split; assumption].
    destruct Si as [[-> ?] | [[-> ?] | [[-> ?] | [[-> ?] | [[-> ?] | [-> ?]]]]]],
             Sj as [[-> ?] | [[-> ?] | [[-> ?] | [[-> ?] | [[-> ?] | [-> ?]]]]]];
      first [lia | exfalso; lra].
  - unfold getAnimationPhase, loadingTexts. cbn [nth_error].
    destruct (Rlt_dec p 0.15); [split; intros; [lra | reflexivity] |].
    split; [| intros; lra].
    destruct (Rlt_dec p 0.3), (Rlt_dec p 0.5), (Rlt_dec p 0.7), (Rlt_dec p 0.9);
      discriminate.
  - unfold getAnimationPhase, loadingTexts. cbn [nth_error].
    destruct (Rlt_dec q 0.15); [split; [discriminate | intros; lra] |].
    destruct (Rlt_dec q 0.3); [split; [discriminate | intros; lra] |].
    destruct (Rlt_dec q 0.5); [split; [discriminate | intros; lra] |].
    destruct (Rlt_dec q 0.7); [split; [discriminate | intros; lra] |].
    destruct (Rlt_dec q 0.9); [split; [discriminate | intros; lra] |].
    split; intros; [lra | reflexivity].
Qed.

Lemma loading_text_advances_witness :
  nth_error loadingTexts 5 = Some (getAnimationPhase 0.95).
Proof.
  apply (proj2 (proj2 (proj2 (loading_text_advances 0.2 0.95 ltac:(lra))))).
  lra.
Defined.

End LoadingText.

(** * What a session keeps, whatever happens to it *)

Section AtMostOnce.

Import Session Invariants.

Ltac fields :=
  cbn [progress fadeOut animationRef startTimeRef mounted frames
       nextHandle timers calls].

Lemma length_enqueue (due : R) (task : TimerTask) (ts : list (R * TimerTask)) :
  length (enqueue due task ts) = S (length ts).
Proof.
  induction ts as [| [d k] rest IH]; [reflexivity |].
  cbn [enqueue]. destruct (Rlt_dec due d); cbn [length]; [reflexivity |].
  now rewrite IH.
Qed.

Lemma countFalse_app (fs gs : list (nat * bool)) :
  countFalse (fs ++ gs) = (countFalse fs + countFalse gs)%nat.
Proof. unfold countFalse. now rewrite filter_app, length_app. Qed.

Lemma countFalse_filter (g : nat * bool -> bool) (fs : list (nat * bool)) :
  (countFalse (filter g fs) <= countFalse fs)%nat.
Proof.
  unfold countFalse. induction fs as [| f rest IH]; [reflexivity |].
  cbn [filter]. destruct (g f), (negb (snd f)) eqn:E; cbn [filter length];
    rewrite ?E; cbn [length]; lia.
Qed.

(** A run of [animate] whose closure has [fadeOut = false] passes its
    token on, to the next frame or to the pause's timer; one whose
    closure has [fadeOut = true] makes none. *)
Lemma tokens_animate (c : bool) (t : R) (s : State) :
  tokens (animate c t s) = (tokens s + (if c then 0 else 1))%nat.
Proof.
  unfold animate, setProgress, called, setTimeout, withTimers,
    requestAnimationFrame. fields.
  set (np := newProgressAt t (startTimeAt t (startTimeRef s))).
  destruct (mounted s), c, (Rge_dec np 1), (Rlt_dec np 1); try lra;
    unfold tokens; fields;
    rewrite ?countFalse_app, ?length_enqueue;
    unfold countFalse, completions; cbn [filter snd negb length flat_map app fst];
    lia.
Qed.

Lemma tokens_frames (t : R) (fs : list (nat * bool)) :
  forall s,
    tokens (fold_left (fun st f => animate (snd f) t st) fs s)
    = (tokens s + countFalse fs)%nat.
Proof.
  induction fs as [| [h c] rest IH]; intros s; [cbn; lia |].
  cbn [fold_left snd]. rewrite IH, tokens_animate.
  unfold countFalse. cbn [filter snd]. destruct c; cbn [negb length]; lia.
Qed.

(** The cleanup touches the pending frames only. *)
Lemma cleanup_keeps (s : State) :
  progress (cleanup s) = progress s /\
  fadeOut (cleanup s) = fadeOut s /\
  animationRef (cleanup s) = animationRef s /\
  startTimeRef (cleanup s) = startTimeRef s /\
  mounted (cleanup s) = mounted s /\
  nextHandle (cleanup s) = nextHandle s /\
  timers (cleanup s) = timers s /\
  calls (cleanup s) = calls s /\
  (countFalse (frames (cleanup s)) <= countFalse (frames s))%nat.
Proof.
  unfold cleanup. destruct (animationRef s) as [h |] eqn:E;
    [| repeat split; auto].
  destruct (Nat.eqb h 0); [repeat split; auto |].
  unfold cancelAnimationFrame, withFrames. fields.
  repeat split; auto. apply countFalse_filter.
Qed.

Lemma setFadeOut_keeps (now : R) (s : State) :
  timers (setFadeOut now s) = timers s /\
  calls (setFadeOut now s) = (now, SetFadeOut) :: calls s /\
  (countFalse (frames (setFadeOut now s)) <= countFalse (frames s))%nat.
Proof.
  unfold setFadeOut, called. fields.
  destruct (mounted s && negb (fadeOut s)); [| fields; repeat split; lia].
  unfold requestAnimationFrame. fields.
  set (s2 := mkState _ _ _ _ _ _ _ _ _).
  destruct (cleanup_keeps s2) as (_ & _ & _ & _ & _ & _ & -> & -> & Hc).
  rewrite countFalse_app. unfold countFalse at 2. cbn [filter snd negb length].
  unfold s2 in *. fields. cbn [frames] in Hc. repeat split. lia.
Qed.

Lemma tokens_step (s : State) (e : Event) : (tokens (step s e) <= tokens s)%nat.
Proof.
  destruct e as [now | now |]; cbn [step].
  - rewrite tokens_frames. unfold tokens, withFrames. fields.
    unfold countFalse at 1. cbn [filter length]. lia.
  - destruct (timers s) as [| [due task] rest] eqn:T; [lia |].
    destruct (Rle_dec due now); [| lia].
    assert (Hs : tokens s = S (tokens (withTimers rest s))).
    { unfold tokens, withTimers. fields. rewrite T. cbn [length]. lia. }
    rewrite Hs. set (s1 := withTimers rest s). destruct task; cbn [runTimer].
    + unfold setTimeout, withTimers. fields.
      unfold tokens at 1. fields. rewrite length_enqueue.
      destruct (setFadeOut_keeps now s1) as (-> & -> & Hf).
      unfold tokens. unfold completions at 1. cbn [flat_map snd app].
      fold (completions (calls s1)). lia.
    + unfold called, tokens. fields. unfold completions at 1.
      cbn [flat_map snd fst app length]. fold (completions (calls s1)). lia.
  - destruct (mounted s); [| lia]. unfold tokens. fields.
    destruct (cleanup_keeps s) as (_ & _ & _ & _ & _ & _ & -> & -> & Hc). lia.
Qed.

Lemma tokens_run (trace : list Event) :
  forall s, (tokens (run s trace) <= tokens s)%nat.
Proof.
  induction trace as [| e rest IH]; intros s; [reflexivity |].
  rewrite run_cons. etransitivity; [apply IH | apply tokens_step].
Qed.

(** Whatever happens to a session (frames and timers in any order and
    however late, an unmount at any point), [onComplete] is not called
    twice, and a timer is never pending beside another or after the
    call. *)
Theorem onComplete_at_most_once (trace : list Event) :
  (length (completions (calls (run mount trace))) <= 1)%nat /\
  (length (timers (run mount trace))
   + length (completions (calls (run mount trace))) <= 1)%nat.
Proof.
  pose proof (tokens_run trace mount) as H.
  unfold tokens in H.
  change (countFalse (frames mount) + length (timers mount)
          + length (completions (calls mount)))%nat with 1%nat in H.
  lia.
Qed.

End AtMostOnce.

Section NeverEarly.

Import Session Invariants.

Ltac fields :=
  cbn [progress fadeOut animationRef startTimeRef mounted frames
       nextHandle timers calls].

Lemma In_enqueue (x : R * TimerTask) (due : R) (task : TimerTask)
    (ts : list (R * TimerTask)) :
  In x (enqueue due task ts) <-> x = (due, task) \/ In x ts.
Proof.
  induction ts as [| [d k] rest IH]; cbn [enqueue In].
  - intuition.
  - destruct (Rlt_dec due d); cbn [In]; [intuition |].
    rewrite IH. intuition.
Qed.

Lemma reachedOne_more (c : R * Call) (cs : list (R * Call)) (bound : R) :
  reachedOne cs bound -> reachedOne (c :: cs) bound.
Proof.
  intros (tp & p & Hin & Hp & Hb). exists tp, p. repeat split; auto.
  now right.
Qed.

Lemma reachedOne_later (cs : list (R * Call)) (bound bound' : R) :
  bound <= bound' -> reachedOne cs bound -> reachedOne cs bound'.
Proof.
  intros Hle (tp & p & Hin & Hp & Hb). exists tp, p. repeat split; auto. lra.
Qed.

Lemma fadeBegun_more (c : R * Call) (cs : list (R * Call)) (bound : R) :
  fadeBegun cs bound -> fadeBegun (c :: cs) bound.
Proof.
  intros (tf & Hin & Hr & Hb). exists tf. repeat split; auto.
  - now right.
  - now apply reachedOne_more.
Qed.

Lemma fadeBegun_later (cs : list (R * Call)) (bound bound' : R) :
  bound <= bound' -> fadeBegun cs bound -> fadeBegun cs bound'.
Proof.
  intros Hle (tf & Hin & Hr & Hb). exists tf. repeat split; auto. lra.
Qed.

(** The four ways the timers and the calls change. *)
Lemma caused_same (s s' : State) :
  timers s' = timers s -> calls s' = calls s -> caused s -> caused s'.
Proof. unfold caused. intros -> ->. auto. Qed.

Lemma caused_progress (s s' : State) (t p : R) :
  timers s' = timers s -> calls s' = (t, SetProgress p) :: calls s ->
  caused s -> caused s'.
Proof.
  unfold caused. intros -> -> (H1 & H2 & H3 & H4). repeat split.
  - intros due Hin. apply reachedOne_more. auto.
  - intros due Hin. apply fadeBegun_more. auto.
  - intros tf [Heq | Hin]; [discriminate |]. apply reachedOne_more. auto.
  - intros tc [Heq | Hin]; [discriminate |]. apply fadeBegun_more. auto.
Qed.

Lemma caused_reached (s s' : State) (t p : R) :
  1 <= p ->
  timers s' = enqueue (t + 800) StartFade (timers s) ->
  calls s' = (t, SetProgress p) :: calls s ->
  caused s -> caused s'.
Proof.
  unfold caused. intros Hp -> -> (H1 & H2 & H3 & H4). repeat split.
  - intros due Hin. apply In_enqueue in Hin. destruct Hin as [Heq | Hin].
    + injection Heq as ->. exists t, p. repeat split; [now left | exact Hp | lra].
    + apply reachedOne_more. auto.
  - intros due Hin. apply In_enqueue in Hin.
    destruct Hin as [Heq | Hin]; [discriminate |]. apply fadeBegun_more. auto.
  - intros tf [Heq | Hin]; [discriminate |]. apply reachedOne_more. auto.
  - intros tc [Heq | Hin]; [discriminate |]. apply fadeBegun_more. auto.
Qed.

Lemma caused_fade (s s' : State) (due now : R) (rest : list (R * TimerTask)) :
  timers s = (due, StartFade) :: rest -> due <= now ->
  timers s' = enqueue (now + fadeOutDuration) Complete rest ->
  calls s' = (now, SetFadeOut) :: calls s ->
  caused s -> caused s'.
Proof.
  unfold caused. intros T Hdue -> -> (H1 & H2 & H3 & H4). rewrite T in *.
  assert (Hnow : reachedOne ((now, SetFadeOut) :: calls s) now).
  { apply reachedOne_more. apply (reachedOne_later _ due); [exact Hdue |].
    apply H1. now left. }
  repeat split.
  - intros d Hin. apply In_enqueue in Hin.
    destruct Hin as [Heq | Hin]; [discriminate |].
    apply reachedOne_more. apply H1. now right.
  - intros d Hin. apply In_enqueue in Hin. destruct Hin as [Heq | Hin].
    + injection Heq as ->. exists now. repeat split; [now left | exact Hnow | lra].
    + apply fadeBegun_more. apply H2. now right.
  - intros tf [Heq | Hin].
    + injection Heq as <-. exact Hnow.
    + apply reachedOne_more. auto.
  - intros tc [Heq | Hin]; [discriminate |]. apply fadeBegun_more. auto.
Qed.

Lemma caused_complete (s s' : State) (due now : R) (rest : list (R * TimerTask)) :
  timers s = (due, Complete) :: rest -> due <= now ->
  timers s' = rest ->
  calls s' = (now, OnComplete) :: calls s ->
  caused s -> caused s'.
Proof.
  unfold caused. intros T Hdue -> -> (H1 & H2 & H3 & H4). rewrite T in *.
  repeat split.
  - intros d Hin. apply reachedOne_more. apply H1. now right.
  - intros d Hin. apply fadeBegun_more. apply H2. now right.
  - intros tf [Heq | Hin]; [discriminate |]. apply reachedOne_more. auto.
  - intros tc [Heq | Hin].
    + injection Heq as <-. apply fadeBegun_more.
      apply (fadeBegun_later _ due); [exact Hdue |]. apply H2. now left.
    + apply fadeBegun_more. auto.
Qed.

(** The timers and calls [animate] leaves. *)
Lemma animate_timers_calls (c : bool) (t : R) (s : State) :
  exists p,
    calls (animate c t s) = (t, SetProgress p) :: calls s /\
    (timers (animate c t s) = timers s \/
     (1 <= p /\ timers (animate c t s) = enqueue (t + 800) StartFade (timers s))).
Proof.
  exists (newProgressAt t (startTimeAt t (startTimeRef s))).
  unfold animate, setProgress, called, setTimeout, withTimers,
    requestAnimationFrame. fields.
  set (np := newProgressAt t (startTimeAt t (startTimeRef s))).
  destruct (mounted s), c, (Rge_dec np 1), (Rlt_dec np 1); fields;
    (split; [reflexivity |]);
    first [left; reflexivity | right; split; [lra | reflexivity]].
Qed.

Lemma caused_animate (c : bool) (t : R) (s : State) :
  caused s -> caused (animate c t s).
Proof.
  intros H. destruct (animate_timers_calls c t s) as (p & Hc & [Ht | [Hp Ht]]).
  - exact (caused_progress s _ t p Ht Hc H).
  - exact (caused_reached s _ t p Hp Ht Hc H).
Qed.

Lemma caused_frames (t : R) (fs : list (nat * bool)) :
  forall s, caused s ->
    caused (fold_left (fun st f => animate (snd f) t st) fs s).
Proof.
  induction fs as [| f rest IH]; intros s H; [exact H |].
  cbn [fold_left]. apply IH. apply caused_animate. exact H.
Qed.

Lemma caused_step (s : State) (e : Event) : caused s -> caused (step s e).
Proof.
  intros H. destruct e as [now | now |]; cbn [step].
  - apply caused_frames. apply (caused_same s); [reflexivity | reflexivity | exact H].
  - destruct (timers s) as [| [due task] rest] eqn:T; [exact H |].
    destruct (Rle_dec due now) as [Hdue | _]; [| exact H].
    destruct task; cbn [runTimer].
    + destruct (setFadeOut_keeps now (withTimers rest s)) as (Ht & Hc & _).
      apply (caused_fade s _ due now rest T Hdue); [| | exact H].
      * unfold setTimeout, withTimers at 1. fields. rewrite Ht. reflexivity.
      * unfold setTimeout, withTimers at 1. fields. rewrite Hc. reflexivity.
    + apply (caused_complete s _ due now rest T Hdue); [reflexivity | reflexivity | exact H].
  - destruct (mounted s); [| exact H].
    destruct (cleanup_keeps s) as (_ & _ & _ & _ & _ & _ & Ht & Hc & _).
    apply (caused_same s); [exact Ht | exact Hc | exact H].
Qed.

Lemma caused_run (trace : list Event) :
  forall s, caused s -> caused (run s trace).
Proof.
  induction trace as [| e rest IH]; intros s H; [exact H |].
  rewrite run_cons. apply IH. apply caused_step. exact H.
Qed.

Lemma caused_mount : caused mount.
Proof. repeat split; intros ? []. Qed.

Lemma In_completions (tc : R) (cs : list (R * Call)) :
  In tc (completions cs) <-> In (tc, OnComplete) cs.
Proof.
  unfold completions. rewrite in_flat_map. split.
  - intros ([t c] & Hin & Hc). destruct c; cbn [snd fst] in Hc;
      try contradiction. destruct Hc as [<- | []]. exact Hin.
  - intros Hin. exists (tc, OnComplete). split; [exact Hin | now left].
Qed.

(** Whatever happens to a session, a call of [onComplete] comes no
    earlier than [fadeOutDuration] after a call of [setFadeOut], which
    comes no earlier than 800 after a frame that set the progress to
    1: timers firing late only push the calls back. *)
Theorem onComplete_never_early (trace : list Event) (tc : R) :
  In tc (completions (calls (run mount trace))) ->
  exists tp p tf,
    In (tp, SetProgress p) (calls (run mount trace)) /\ 1 <= p /\
    In (tf, SetFadeOut) (calls (run mount trace)) /\
    tp + 800 <= tf /\ tf + fadeOutDuration <= tc.
Proof.
  intros Hin. apply In_completions in Hin.
  destruct (caused_run trace mount caused_mount) as (_ & _ & _ & H4).
  destruct (H4 tc Hin) as (tf & Hf & (tp & p & Hp & H1 & H8) & H12).
  exists tp, p, tf. repeat split; assumption.
Qed.

Lemma onComplete_never_early_witness :
  exists tp p tf,
    In (tp, SetProgress p)
       (calls (run mount (fullRun 1000 [] 5500 [] 6300 [] 7500 []))) /\ 1 <= p /\
    In (tf, SetFadeOut)
       (calls (run mount (fullRun 1000 [] 5500 [] 6300 [] 7500 []))) /\
    tp + 800 <= tf /\ tf + fadeOutDuration <= 7500.
Proof.
  apply (onComplete_never_early (fullRun 1000 [] 5500 [] 6300 [] 7500 []) 7500).
  destruct (run_to_end 1000 5500 6300 7500 [] [] [] [])
    as (p & h & cs & -> & Hc & _);
    try (unfold totalDuration, fadeOutDuration; lra); [constructor |].
  fields. rewrite Hc. now left.
Defined.

End NeverEarly.

Section OneLoop.

Import Session Invariants.

Ltac fields :=
  cbn [progress fadeOut animationRef startTimeRef mounted frames
       nextHandle timers calls].

Lemma animate_frames (c : bool) (t : R) (s : State) :
  mounted (animate c t s) = mounted s /\
  ((frames (animate c t s) = frames s /\
    nextHandle (animate c t s) = nextHandle s /\
    animationRef (animate c t s) = animationRef s) \/
   (frames (animate c t s) = frames s ++ [(nextHandle s, c)] /\
    nextHandle (animate c t s) = S (nextHandle s) /\
    animationRef (animate c t s) = Some (nextHandle s))).
Proof.
  unfold animate, setProgress, called, setTimeout, withTimers,
    requestAnimationFrame. fields.
  set (np := newProgressAt t (startTimeAt t (startTimeRef s))).
  destruct (mounted s), c, (Rge_dec np 1), (Rlt_dec np 1); fields;
    (split; [reflexivity |]);
    first [left; repeat split; reflexivity | right; repeat split; reflexivity].
Qed.

Lemma cleanup_clears (s : State) : oneFrame s -> frames (cleanup s) = [].
Proof.
  intros (_ & [Hf | (h & c & Hf & Hr)] & _); unfold cleanup.
  - destruct (animationRef s) as [h |]; [| exact Hf].
    destruct (Nat.eqb h 0); [exact Hf |].
    unfold cancelAnimationFrame, withFrames. fields. rewrite Hf. reflexivity.
  - rewrite Hr. cbn [Nat.eqb].
    unfold cancelAnimationFrame, withFrames. fields. rewrite Hf.
    cbn [filter fst]. rewrite Nat.eqb_refl. reflexivity.
Qed.

Lemma oneFrame_same (s s' : State) :
  nextHandle s' = nextHandle s -> frames s' = frames s ->
  animationRef s' = animationRef s -> mounted s' = mounted s ->
  oneFrame s -> oneFrame s'.
Proof. unfold oneFrame. intros -> -> -> ->. auto. Qed.

Lemma oneFrame_setFadeOut (now : R) (s : State) :
  oneFrame s -> oneFrame (setFadeOut now s).
Proof.
  intros H. unfold setFadeOut, called. fields.
  destruct (mounted s && negb (fadeOut s)) eqn:C.
  2:{ apply (oneFrame_same s); [reflexivity .. | exact H]. }
  apply andb_prop in C. destruct C as [M _].
  unfold requestAnimationFrame. fields.
  set (s2 := mkState (progress s) true (animationRef s) (startTimeRef s)
                     (mounted s) (frames s) (nextHandle s) (timers s)
                     ((now, SetFadeOut) :: calls s)).
  assert (H2 : oneFrame s2)
    by (apply (oneFrame_same s); [reflexivity .. | exact H]).
  destruct (cleanup_keeps s2) as (_ & _ & _ & _ & -> & -> & _).
  rewrite (cleanup_clears s2 H2). unfold s2. fields.
  destruct H as ((n & Hn) & _ & _). rewrite Hn, M.
  split; [exists (S n); reflexivity |].
  split; [| discriminate].
  right. exists n, true. split; reflexivity.
Qed.

Lemma oneFrame_step (s : State) (e : Event) : oneFrame s -> oneFrame (step s e).
Proof.
  intros H. destruct e as [now | now |]; cbn [step].
  - destruct H as ((n & Hn) & [Hf | (h & c & Hf & Hr)] & Hm).
    + rewrite Hf. cbn [fold_left].
      split; [exists n; exact Hn |]. split; [now left | reflexivity].
    + rewrite Hf. cbn [fold_left snd].
      destruct (mounted s) eqn:M; [| rewrite Hm in Hf by reflexivity; discriminate].
      set (s0 := withFrames [] s).
      assert (M0 : mounted s0 = true) by exact M.
      assert (N0 : nextHandle s0 = S n) by exact Hn.
      assert (F0 : frames s0 = []) by reflexivity.
      destruct (animate_frames c now s0) as (Hm' & [(F & N & A) | (F & N & A)]).
      * split; [exists n; now rewrite N |].
        split; [left; now rewrite F |].
        rewrite Hm', M0. discriminate.
      * split; [exists (S n); now rewrite N, N0 |].
        split; [| rewrite Hm', M0; discriminate].
        right. exists n, c. rewrite F, A, F0, N0. split; reflexivity.
  - destruct (timers s) as [| [due task] rest]; [exact H |].
    destruct (Rle_dec due now); [| exact H].
    destruct task; cbn [runTimer].
    + apply (oneFrame_same (setFadeOut now (withTimers rest s)));
        [reflexivity .. |].
      apply oneFrame_setFadeOut.
      apply (oneFrame_same s); [reflexivity .. | exact H].
    + apply (oneFrame_same s); [reflexivity .. | exact H].
  - destruct (mounted s) eqn:M; [| exact H].
    destruct (cleanup_keeps s) as (_ & _ & _ & _ & _ & Hn & _).
    pose proof (cleanup_clears s H) as Hc.
    destruct H as ((n & Hn') & _ & _).
    split; [exists n; fields; now rewrite Hn |].
    split; [left; exact Hc | intros _; exact Hc].
Qed.

Lemma oneFrame_run (trace : list Event) :
  forall s, oneFrame s -> oneFrame (run s trace).
Proof.
  induction trace as [| e rest IH]; intros s H; [exact H |].
  rewrite run_cons. apply IH. apply oneFrame_step. exact H.
Qed.

Lemma oneFrame_mount : oneFrame mount.
Proof.
  split; [exists 1%nat; reflexivity |]. split; [| discriminate].
  right. exists 0%nat, false. split; reflexivity.
Qed.

(** The effect is run again when [fadeOut] changes, and still the
    frame loop is never doubled: at most one frame callback is pending
    at any time, and none once the component is unmounted. *)
Theorem one_frame_pending (trace : list Event) :
  (length (frames (run mount trace)) <= 1)%nat /\
  (mounted (run mount trace) = false -> frames (run mount trace) = []).
Proof.
  destruct (oneFrame_run trace mount oneFrame_mount)
    as (_ & [Hf | (h & c & Hf & _)] & Hm);
    (split; [rewrite Hf; cbn [length]; lia | exact Hm]).
Qed.

Lemma one_frame_pending_witness :
  frames (run mount [Frame 1000; Unmount; Frame 2000]) = [].
Proof.
  apply (proj2 (one_frame_pending [Frame 1000; Unmount; Frame 2000])).
  change (run mount [Frame 1000; Unmount; Frame 2000])
    with (run (step (step mount (Frame 1000)) Unmount) [Frame 2000]).
  destruct (unmount_while_entering 1000 (step mount (Frame 1000)) [Frame 2000]
              (first_frame 1000 ltac:(lra))) as [M E].
  rewrite E. exact M.
Defined.

(** An unmounted component is left alone. *)
Lemma unmounted_step (s : State) (e : Event) :
  oneFrame s -> mounted s = false ->
  mounted (step s e) = false /\
  progress (step s e) = progress s /\
  fadeOut (step s e) = fadeOut s /\
  startTimeRef (step s e) = startTimeRef s /\
  (forall t p, In (t, SetProgress p) (calls (step s e)) ->
               In (t, SetProgress p) (calls s)).
Proof.
  intros (_ & _ & Hm) M. specialize (Hm M).
  destruct e as [now | now |]; cbn [step].
  - rewrite Hm. cbn [fold_left]. repeat split; auto.
  - destruct (timers s) as [| [due task] rest]; [repeat split; auto |].
    destruct (Rle_dec due now); [| repeat split; auto].
    destruct task; cbn [runTimer].
    + unfold setTimeout, withTimers, setFadeOut, called. fields. rewrite M.
      cbn [andb]. fields. repeat split; auto.
      intros t p [Heq | Hin]; [discriminate | exact Hin].
    + unfold called, withTimers. fields. repeat split; auto.
      intros t p [Heq | Hin]; [discriminate | exact Hin].
  - rewrite M. repeat split; auto.
Qed.

Lemma unmounted_run (trace : list Event) :
  forall s, oneFrame s -> mounted s = false ->
    mounted (run s trace) = false /\
    frames (run s trace) = [] /\
    progress (run s trace) = progress s /\
    fadeOut (run s trace) = fadeOut s /\
    startTimeRef (run s trace) = startTimeRef s /\
    (forall t p, In (t, SetProgress p) (calls (run s trace)) ->
                 In (t, SetProgress p) (calls s)).
Proof.
  induction trace as [| e rest IH]; intros s H M.
  - destruct H as (_ & _ & Hm). repeat split; auto.
  - rewrite run_cons.
    destruct (unmounted_step s e H M) as (M' & Hp & Hf & Hs & Hc).
    destruct (IH (step s e) (oneFrame_step s e H) M')
      as (M2 & F2 & P2 & O2 & S2 & C2).
    repeat split; try congruence. auto.
Qed.

(** After the unmount, whatever was pending and whatever happens, no
    frame callback runs: [setProgress] is not called again, and
    [progress], [fadeOut] and the start time stay as they were.  (The
    calls still made are those of the timers.) *)
Theorem unmount_stops_frames (before after : list Event) :
  let disposed := run mount (before ++ [Unmount]) in
  let later := run disposed after in
  mounted later = false /\
  frames later = [] /\
  progress later = progress disposed /\
  fadeOut later = fadeOut disposed /\
  startTimeRef later = startTimeRef disposed /\
  (forall t p, In (t, SetProgress p) (calls later) ->
               In (t, SetProgress p) (calls disposed)).
Proof.
  intros disposed later.
  apply unmounted_run.
  - apply oneFrame_run. exact oneFrame_mount.
  - unfold disposed. rewrite run_app.
    change (run (run mount before) [Unmount]) with (step (run mount before) Unmount).
    cbn [step]. destruct (mounted (run mount before)) eqn:M; [reflexivity | exact M].
Qed.

End OneLoop.

Section ProgressRange.

Import Session.

Lemma newProgressAt_le_1 (t startTime : R) : newProgressAt t startTime <= 1.
Proof. unfold newProgressAt. apply Rmin_r. Qed.

Lemma runTicks_le_1 (ticks : list (bool * R)) :
  forall s, progress s <= 1 -> progress (runTicks s ticks) <= 1.
Proof.
  unfold runTicks.
  induction ticks as [| [c t] rest IH]; intros s H; [exact H |].
  cbn [fold_left]. apply IH. unfold tick. cbn [fst snd].
  destruct (animate_fields c t s) as (_ & _ & _ & -> & _).
  destruct (mounted s); [apply newProgressAt_le_1 | exact H].
Qed.

(** From the mount on, when the frames come with time stamps that do
    not decrease, the progress the component shows stays within
    [0,1]: it is 0 after the first frame and 1 at most. *)
Theorem progress_in_unit (c : bool) (t : R) (later : list (bool * R)) :
  StronglySorted Rle (t :: map snd later) ->
  progress (tick mount (c, t)) = 0 /\
  0 <= progress (runTicks mount ((c, t) :: later)) <= 1.
Proof.
  intros Hs.
  assert (H0 : progress (tick mount (c, t)) = 0).
  { unfold tick. cbn [fst snd].
    destruct (animate_fields c t mount) as (_ & _ & _ & -> & _).
    cbn [mounted mount requestAnimationFrame startTimeRef startTimeAt].
    apply newProgressAt_same. }
  split; [exact H0 |].
  change (runTicks mount ((c, t) :: later))
    with (runTicks (tick mount (c, t)) later).
  split.
  - rewrite <- H0 at 1.
    apply (runTicks_progress_mono later (tick mount (c, t)) t);
      [apply animate_ticked | exact Hs].
  - apply runTicks_le_1. rewrite H0. lra.
Qed.

Lemma progress_in_unit_witness :
  0 <= progress (runTicks mount [(false, 1000); (false, 3000); (false, 9000)]) <= 1.
Proof.
  refine (proj2 (progress_in_unit false 1000 [(false, 3000); (false, 9000)] _)).
  cbn [map snd]. repeat constructor; lra.
Defined.

(** A frame that captures its own time stamp as the start time. *)
Lemma animate_captures (t p : R) (h : nat) (st : option R) (cs : list (R * Call)) :
  startTimeAt t st = t ->
  step (mkState p false (Some (S h)) st true [(S h, false)] (S (S h)) [] cs)
       (Frame t)
  = mkState 0 false (Some (S (S h))) (Some t) true
            [(S (S h), false)] (S (S (S h))) [] ((t, SetProgress 0) :: cs).
Proof.
  intros Hs. unfold step, withFrames.
  cbn [progress fadeOut animationRef startTimeRef mounted frames
       nextHandle timers calls fold_left snd].
  unfold animate.
  cbn [progress fadeOut animationRef startTimeRef mounted frames
       nextHandle timers calls].
  rewrite Hs, newProgressAt_same.
  unfold setProgress, called, requestAnimationFrame.
  cbn [progress fadeOut animationRef startTimeRef mounted frames
       nextHandle timers calls app].
  destruct (Rge_dec 0 1); [lra |]. destruct (Rlt_dec 0 1); [| lra].
  reflexivity.
Qed.

(** A first time stamp of 0 is taken for an unset start time: the
    start time is captured again by the next frame, and only a frame
    with another time stamp starts the animation, at progress 0. *)
Theorem zero_stamp_restarts (k : nat) (t1 : R) :
  t1 <> 0 ->
  entering t1 (run mount (map Frame (repeat 0 k) ++ [Frame t1])) /\
  progress (run mount (map Frame (repeat 0 k) ++ [Frame t1])) = 0.
Proof.
  intros H1.
  assert (Hz : forall n, exists h cs st,
             run mount (map Frame (repeat 0 n))
             = mkState 0 false (Some (S h)) st true [(S h, false)] (S (S h)) [] cs /\
             (st = None \/ st = Some 0) /\
             completions cs = [] /\ fadeStarts cs = []).
  { induction n as [| n IH].
    - exists 0%nat, [], None. repeat split. now left.
    - destruct IH as (h & cs & st & E & Hst & Hc & Hf).
      replace (repeat 0 (S n)) with (repeat 0 n ++ [0])
        by (symmetry; apply (repeat_cons n 0)).
      rewrite map_app, run_app, E. cbn [map].
      change (run ?s [Frame 0]) with (step s (Frame 0)).
      rewrite animate_captures.
      + exists (S h), ((0, SetProgress 0) :: cs), (Some 0).
        repeat split; auto.
      + destruct Hst as [-> | ->]; cbn [startTimeAt]; [reflexivity |].
        destruct (Req_dec_T 0 0); reflexivity. }
  destruct (Hz k) as (h & cs & st & E & Hst & Hc & Hf).
  rewrite run_app, E.
  change (run ?s [Frame t1]) with (step s (Frame t1)).
  rewrite animate_captures.
  - split; [| reflexivity].
    exists 0, (S h), ((t1, SetProgress 0) :: cs).
    repeat split; auto. lra.
  - destruct Hst as [-> | ->]; cbn [startTimeAt]; [reflexivity |].
    destruct (Req_dec_T 0 0) as [_ | N]; [reflexivity | contradiction N; reflexivity].
Qed.

Lemma zero_stamp_restarts_witness :
  entering 16 (run mount (map Frame (repeat 0 2) ++ [Frame 16])).
Proof.
  refine (proj1 (zero_stamp_restarts 2 16 _)). lra.
Defined.

End ProgressRange.

(** * The splash screen under [App] *)

Section UnderApp.

Import Session Host.

Lemma completions_nil_app (l cs : list (R * Call)) :
  completions (l ++ cs) = [] -> completions cs = [].
Proof.
  rewrite completions_app. intros H. apply app_eq_nil in H. apply H.
Qed.

(** As long as [onComplete] has not been called, [App] keeps showing
    the splash screen and only passes the events on. *)
Lemma appRun_before_completion (trace : list Event) :
  forall b s, completions (calls (run s trace)) = [] ->
    appRun (mkApp b s) trace = mkApp b (run s trace).
Proof.
  induction trace as [| e rest IH]; intros b s H; [reflexivity |].
  rewrite run_cons in H |- *.
  assert (H1 : completions (calls (step s e)) = []).
  { destruct (calls_run rest (step s e)) as [l Hl]. rewrite Hl in H.
    exact (completions_nil_app _ _ H). }
  assert (H0 : completions (calls s) = []).
  { destruct (calls_step s e) as [l Hl]. rewrite Hl in H1.
    exact (completions_nil_app _ _ H1). }
  cbn [appRun fold_left]. unfold appStep at 2. cbn [splash showSplash].
  rewrite H1, H0. cbn [length Nat.sub Nat.iter].
  apply IH. exact H.
Qed.

(** Unmounted, with no frame and no timer pending, nothing happens. *)
Lemma appRun_at_rest (b : bool) (p : R) (fo : bool) (a : option nat)
    (st : option R) (n : nat) (cs : list (R * Call)) (trace : list Event) :
  appRun (mkApp b (mkState p fo a st false [] n [] cs)) trace
  = mkApp b (mkState p fo a st false [] n [] cs).
Proof.
  induction trace as [| e rest IH]; [reflexivity |].
  cbn [appRun fold_left]. unfold appStep at 2. cbn [splash showSplash].
  assert (E : step (mkState p fo a st false [] n [] cs) e
              = mkState p fo a st false [] n [] cs) by (destruct e; reflexivity).
  rewrite E, Nat.sub_diag. cbn [Nat.iter]. exact IH.
Qed.

(** Under [App] a full run ends the splash screen for good: the splash
    screen is shown up to the fade's timer; when that fires,
    [onComplete] is called once, [App] stops showing the splash screen
    and unmounts it with nothing left pending, and no later event
    changes anything. *)
Theorem app_leaves_splash (t0 tDone tFade tEnd : R) (es hs fs gs : list R) :
  t0 <> 0 ->
  Forall (fun t => t - t0 < totalDuration) es ->
  totalDuration <= tDone - t0 ->
  tDone + 800 <= tFade ->
  tFade + fadeOutDuration <= tEnd ->
  showSplash (appRun mountApp (Frame t0 :: map Frame es ++
                               Frame tDone :: map Frame hs ++
                               Timer tFade :: map Frame fs)) = true /\
  let final := appRun mountApp (fullRun t0 es tDone hs tFade fs tEnd gs) in
  showSplash final = false /\
  mounted (splash final) = false /\
  completions (calls (splash final)) = [tEnd] /\
  frames (splash final) = [] /\ timers (splash final) = [] /\
  forall later, appRun final later = final.
Proof.
  intros H0 Hes Hdone Hfade Hend.
  pose proof (run_to_fade t0 tDone tFade es hs fs H0 Hes Hdone Hfade) as Hf.
  set (pre := Frame t0 :: map Frame es ++ Frame tDone :: map Frame hs ++
              Timer tFade :: map Frame fs) in *.
  assert (Hpre : appRun mountApp pre = mkApp true (run mount pre)).
  { apply appRun_before_completion.
    destruct Hf as (p & h & cs & -> & Hc & _). exact Hc. }
  split; [rewrite Hpre; reflexivity |].
  assert (Hfinal : exists p h cs,
             appRun mountApp (fullRun t0 es tDone hs tFade fs tEnd gs)
             = mkApp false (mkState p true (Some (S h)) (Some t0) false []
                                    (S (S h)) [] cs) /\
             completions cs = [tEnd]).
  { assert (Hsplit : fullRun t0 es tDone hs tFade fs tEnd gs
                     = pre ++ Timer tEnd :: map Frame gs).
    { unfold fullRun, pre. cbn [app]. rewrite <- !app_assoc. cbn [app].
      rewrite <- !app_assoc. reflexivity. }
    rewrite Hsplit. unfold appRun. rewrite fold_left_app.
    fold (appRun mountApp pre). rewrite Hpre. cbn [fold_left].
    unfold appStep at 2. cbn [splash showSplash].
    destruct (fading_timer t0 tFade tEnd _ Hend Hf) as (p & h & cs & -> & Hc & _).
    destruct Hf as (p' & h' & cs' & -> & Hc' & _). cbn [calls].
    rewrite Hc, Hc'. cbn [length Nat.sub].
    change (Nat.iter 1 handleSplashComplete ?a) with (handleSplashComplete a).
    unfold handleSplashComplete. cbn [showSplash splash].
    assert (E : step (mkState p true (Some (S h)) (Some t0) true
                              [(S h, true)] (S (S h)) [] cs) Unmount
                = mkState p true (Some (S h)) (Some t0) false [] (S (S h)) [] cs).
    { unfold step, cleanup, cancelAnimationFrame, withFrames.
      cbn [progress fadeOut animationRef startTimeRef mounted frames
           nextHandle timers calls Nat.eqb filter fst].
      rewrite Nat.eqb_refl. reflexivity. }
    rewrite E. exists p, h, cs. split; [| exact Hc].
    apply (appRun_at_rest false p true (Some (S h)) (Some t0) (S (S h)) cs
                          (map Frame gs)). }
  destruct Hfinal as (p & h & cs & -> & Hc).
  cbv zeta. cbn [showSplash splash mounted calls frames timers].
  repeat split; try reflexivity; [exact Hc |].
  intros later. apply appRun_at_rest.
Qed.

Lemma app_leaves_splash_witness :
  showSplash (appRun mountApp (fullRun 1000 [2000] 5500 [] 6300 [6400] 7500 [7600]))
  = false.
Proof.
  refine (proj1 (proj2 (app_leaves_splash 1000 5500 6300 7500
                          [2000] [] [6400] [7600] _ _ _ _ _))).
  - lra.
  - unfold totalDuration. repeat constructor; lra.
  - unfold totalDuration. lra.
  - lra.
  - unfold fadeOutDuration. lra.
Defined.

End UnderApp.

(** * More on the seeds *)

Section SeedsInUse.

Import Seeds Trajectory.

Lemma letterData_nth {A} (xs : list A) (rnd : nat -> R) (i : nat) :
  (i < length xs)%nat ->
  nth_error (letterData xs rnd) i = Some (fst (seed i rnd (8 * i)%nat)).
Proof.
  intros Hi. unfold letterData. rewrite (mapFrom_nth rnd xs 0 0 i Hi).
  do 3 f_equal; lia.
Qed.

(** There is one seed per letter, and the final positions lie on one
    line, 8 apart, each letter to the left of the one before it. *)
Theorem final_layout {A} (xs : list A) (rnd : nat -> R) (i j : nat) :
  (i < j)%nat -> (j < length xs)%nat ->
  length (letterData xs rnd) = length xs /\
  exists di dj,
    nth_error (letterData xs rnd) i = Some di /\
    nth_error (letterData xs rnd) j = Some dj /\
    finalX dj = finalX di - 8 * INR (j - i) /\
    finalX dj < finalX di /\
    finalY di = 0 /\ finalY dj = 0.
Proof.
  intros Hij Hj. split; [apply letterData_length |].
  rewrite (letterData_nth xs rnd i) by lia.
  rewrite (letterData_nth xs rnd j) by lia.
  rewrite !seed_draws. cbn [fst].
  eexists _, _. split; [reflexivity |]. split; [reflexivity |].
  cbn [finalX finalY].
  assert (Hd : INR j = INR i + INR (j - i)).
  { rewrite <- plus_INR. f_equal. lia. }
  assert (Hpos : 0 < INR (j - i)) by (apply lt_0_INR; lia).
  repeat split; lra.
Qed.

Lemma final_layout_witness :
  exists di dj,
    nth_error (letterData letters (fun _ => 0.5)) 1 = Some di /\
    nth_error (letterData letters (fun _ => 0.5)) 4 = Some dj /\
    finalX dj = finalX di - 8 * INR (4 - 1) /\
    finalX dj < finalX di /\
    finalY di = 0 /\ finalY dj = 0.
Proof.
  refine (proj2 (final_layout letters (fun _ => 0.5) 1 4 _ _));
    unfold letters; cbn [length]; lia.
Defined.

(** The seed of letter [i] is made of the draws [8 i .. 8 i + 7] and
    of nothing else: two streams of draws that agree there give the
    same seed. *)
Theorem seed_reads_its_draws {A} (xs : list A) (rnd rnd' : nat -> R) (i : nat) :
  (i < length xs)%nat ->
  (forall k, (8 * i <= k < 8 * i + 8)%nat -> rnd k = rnd' k) ->
  nth_error (letterData xs rnd) i = nth_error (letterData xs rnd') i.
Proof.
  intros Hi Hk.
  rewrite (letterData_nth xs rnd i Hi), (letterData_nth xs rnd' i Hi).
  rewrite !seed_draws. cbn [fst].
  rewrite (Hk (8 * i)%nat), (Hk (1 + 8 * i)%nat), (Hk (2 + 8 * i)%nat),
    (Hk (3 + 8 * i)%nat), (Hk (4 + 8 * i)%nat), (Hk (5 + 8 * i)%nat),
    (Hk (6 + 8 * i)%nat), (Hk (7 + 8 * i)%nat) by lia.
  reflexivity.
Qed.

Lemma seed_reads_its_draws_witness :
  nth_error (letterData letters (fun k => if Nat.ltb k 8 then 0.25 else 0.5)) 1
  = nth_error (letterData letters (fun _ => 0.5)) 1.
Proof.
  apply (seed_reads_its_draws letters
           (fun k => if Nat.ltb k 8 then 0.25 else 0.5) (fun _ => 0.5) 1).
  - unfold letters. cbn [length]. lia.
  - intros k Hk. destruct (Nat.ltb k 8) eqn:E; [| reflexivity].
    apply Nat.ltb_lt in E. lia.
Defined.

(** A letter drawn from generated seeds, at any progress in [0,1]: its
    scale is between 0.1 and 1, its rotation within 360 degrees either
    way, its pixelation between 0 and 8 (8 included), and its final
    position on the line, at [-8 i]. *)
Theorem generated_letter_in_motion {A} (xs : list A) (rnd : nat -> R)
    (i : nat) (t : R) :
  (forall k, 0 <= rnd k < 1) ->
  (i < length xs)%nat -> 0 <= t -> t <= 1 ->
  exists d, nth_error (letterData xs rnd) i = Some d /\
    0.1 <= scale (getPosition d (Z.of_nat i) t) <= 1 /\
    -360 <= rotation (getPosition d (Z.of_nat i) t) <= 360 /\
    0 <= pixelSize d t <= 8 /\
    x (getPosition d (Z.of_nat i) 1) = -8 * INR i /\
    y (getPosition d (Z.of_nat i) 1) = 0.
Proof.
  intros Hr Hi H0 H1.
  rewrite (letterData_nth xs rnd i Hi), seed_draws. cbn [fst].
  eexists. split; [reflexivity |].
  rewrite scale_eq, rotation_eq, getPosition_at_1. unfold pixelSize.
  cbn [startScale startRotation pixelIntensity finalX finalY x y].
  pose proof (Hr (2 + 8 * i)%nat) as R2.
  pose proof (Hr (3 + 8 * i)%nat) as R3.
  pose proof (Hr (6 + 8 * i)%nat) as R6.
  pose proof (eased_clamp_range 1.5 t ltac:(lra) H0) as E1.
  pose proof (eased_clamp_range 1.8 t ltac:(lra) H0) as E2.
  pose proof (easeInOutCubic_range t ltac:(lra)) as E3.
  set (e1 := easeInOutCubic (Rmin (t * 1.5) 1)) in *.
  set (e2 := easeInOutCubic (Rmin (t * 1.8) 1)) in *.
  set (e3 := easeInOutCubic t) in *.
  set (r2 := rnd (2 + 8 * i)%nat) in *.
  set (r3 := rnd (3 + 8 * i)%nat) in *.
  set (r6 := rnd (6 + 8 * i)%nat) in *.
  repeat split; nra.
Qed.

Lemma generated_letter_in_motion_witness :
  exists d, nth_error (letterData letters (fun _ => 0.5)) 3 = Some d /\
    0.1 <= scale (getPosition d (Z.of_nat 3) 0.5) <= 1 /\
    -360 <= rotation (getPosition d (Z.of_nat 3) 0.5) <= 360 /\
    0 <= pixelSize d 0.5 <= 8 /\
    x (getPosition d (Z.of_nat 3) 1) = -8 * INR 3 /\
    y (getPosition d (Z.of_nat 3) 1) = 0.
Proof.
  apply (generated_letter_in_motion letters (fun _ => 0.5) 3 0.5).
  - intros _. lra.
  - unfold letters. cbn [length]. lia.
  - lra.
  - lra.
Defined.

End SeedsInUse.

Section ThePause.

Import Session.

(** The frame that reaches progress 1 stops the frame loop and sets
    the pause's timer, due 800 later: until then the component shows
    progress 1 and nothing moves, neither by frames nor by the timer
    being tried early. *)
Theorem pause_is_still (t0 tDone : R) (es : list R) :
  t0 <> 0 ->
  Forall (fun t => t - t0 < totalDuration) es ->
  totalDuration <= tDone - t0 ->
  let s := run mount (Frame t0 :: map Frame es ++ [Frame tDone]) in
  progress s = 1 /\ phase s = HoldingComplete /\
  frames s = [] /\ timers s = [(tDone + 800, StartFade)] /\
  (forall hs, run s (map Frame hs) = s) /\
  (forall t, t < tDone + 800 -> step s (Timer t) = s).
Proof.
  intros H0 Hes Hdone s.
  assert (Hh : holding t0 (tDone + 800) s).
  { unfold s. rewrite run_cons, run_app.
    change (run ?x [Frame tDone]) with (step x (Frame tDone)).
    apply entering_last_frame; [exact H0 | exact Hdone |].
    apply entering_frames; [exact H0 | exact Hes |].
    apply first_frame. exact H0. }
  pose proof (proj1 (proj2 (phase_of_state t0 (tDone + 800) 0 0 s)) Hh) as Hph.
  assert (Hfr : forall hs, run s (map Frame hs) = s)
    by (intros hs; apply (holding_frames t0 (tDone + 800) hs s Hh)).
  destruct Hh as (h & cs & E & _ & _). rewrite E in *.
  cbn [progress frames timers].
  repeat split; try reflexivity; [exact Hph | exact Hfr |].
  intros t Ht. cbn [step timers].
  destruct (Rle_dec (tDone + 800) t); [lra | reflexivity].
Qed.

Lemma pause_is_still_witness :
  step (run mount (Frame 1000 :: map Frame [2000] ++ [Frame 5500])) (Timer 6000)
  = run mount (Frame 1000 :: map Frame [2000] ++ [Frame 5500]).
Proof.
  refine (proj2 (proj2 (proj2 (proj2 (proj2
            (pause_is_still 1000 5500 [2000] _ _ _))))) 6000 _).
  - lra.
  - unfold totalDuration. repeat constructor; lra.
  - unfold totalDuration. lra.
  - lra.
Defined.

End ThePause.
